(** * FastMQ: the AsyncAPI document model ([fastmq/asyncapi/models.py])

    The module is a set of pydantic class declarations, written against
    pydantic 1.x ([__get_validators__], [Field(..., alias=...)]).  What a
    declaration means (how a raw document becomes an instance, what can be
    done with the instance) is fixed by [pydantic.BaseModel]; the development
    has four parts:

    - the rules of pydantic 1.x that the declarations rely on, as an
      interpreter [validate] over declared annotations, with the validators
      of the scalar types and the reading and assigning of attributes;
    - [Models]: the declarations of [models.py], class by class, attribute
      by attribute, in source order;
    - [serialize], which the module does not contain, after the
      specification;
    - the properties, and the claims of the specification settled on them. *)

Set Warnings "-register-all".
From Stdlib Require Import ZArith Ascii String.
From Stdlib Require Floats.SpecFloat.
From stdpp Require Import gmap strings list fin_maps pretty.

(** ** Raw documents

    A raw document is decoded JSON/YAML: [None], [bool], [int], [float], [str],
    [list] and [dict] with string keys.  A Python [float] is an IEEE binary64
    value. *)

Abbreviation pyfloat := SpecFloat.spec_float.

Inductive json :=
| JNull
| JBool (b : bool)
| JInt (z : Z)
| JFloat (f : pyfloat)
| JStr (s : string)
| JArr (l : list json)
| JObj (m : gmap string json).

Definition is_null (j : json) : bool :=
  match j with JNull => true | _ => false end.

(** ** What lies outside the repository

    Python built-ins on unusual operands and the two format validators of
    pydantic are not part of [models.py]; the interpreter takes them from a
    [Runtime].  [email_validator_installed] tells which branch of the
    [try: import email_validator] of the module was taken. *)

Record Runtime := {
  email_validator_installed : bool;
  (** [pydantic.EmailStr.validate] on a string: the normalised address *)
  pydantic_EmailStr : string → option string;
  (** [pydantic.AnyUrl.validate] on a string *)
  pydantic_AnyUrl : string → option string;
  (** [dict(v)] for a [v] that is not a [dict], when it succeeds with string
      keys; [None] when it raises.  (A result with other keys is not decoded
      JSON and counts as refused.) *)
  py_dict : json → option (gmap string json);
  (** [str(v)] for a [v] that is not a [str] *)
  py_str : json → string;
  (** [int(s)], [int(f)], [float(z)], [float(s)], [str(f)]; [None] when the
      conversion raises *)
  py_int_of_str : string → option Z;
  py_int_of_float : pyfloat → option Z;
  py_float_of_int : Z → option pyfloat;
  py_float_of_str : string → option pyfloat;
  py_str_of_float : pyfloat → string;
}.

(** ** pydantic: declarations *)

Module Pydantic.

(** The default of a declared attribute: nothing written ([Undefined]),
    the ellipsis of [Field(...)] ([Ellipsis]) or [None]; the module uses no
    other default. *)
Inductive default_value := Undefined | Ellipsis | DefaultNone.

Record FieldInfo := {
  fi_default : default_value;
  fi_alias : option string;
  fi_ge : option Z;
  fi_extra : list (string * json);
}.

(** Keyword arguments that [pydantic.Field] knows; any other keyword is
    stored verbatim in [extra] and plays no part in validation. *)
Definition Field_keywords : list string :=
  ["default_factory"; "alias"; "title"; "description"; "exclude"; "include";
   "const"; "gt"; "ge"; "lt"; "le"; "multiple_of"; "allow_inf_nan";
   "max_digits"; "decimal_places"; "min_items"; "max_items"; "unique_items";
   "min_length"; "max_length"; "allow_mutation"; "regex"; "discriminator";
   "repr"].

Fixpoint kwarg (k : string) (kwargs : list (string * json)) : option json :=
  match kwargs with
  | [] => None
  | (k', v) :: rest => if String.eqb k k' then Some v else kwarg k rest
  end.

Definition known_keyword (k : string) : bool :=
  existsb (String.eqb k) Field_keywords.

(** [Field(default, **kwargs)] *)
Definition Field (default : default_value) (kwargs : list (string * json))
  : FieldInfo :=
  {| fi_default := default;
     fi_alias := match kwarg "alias" kwargs with
                 | Some (JStr a) => Some a
                 | _ => None
                 end;
     fi_ge := match kwarg "ge" kwargs with
              | Some (JInt z) => Some z
              | _ => None
              end;
     fi_extra := List.filter (λ kv, negb (known_keyword kv.1)) kwargs |}.

Inductive Extra := ExtraAllow | ExtraIgnore | ExtraForbid.

(** The switches of [BaseConfig] that bear on the operations modelled. *)
Record Config := {
  cfg_extra : Extra;
  cfg_allow_mutation : bool;
  cfg_frozen : bool;
  cfg_validate_assignment : bool;
  cfg_allow_population_by_field_name : bool;
  cfg_use_enum_values : bool;
}.

(** pydantic's defaults; a class without an inner [Config] has these. *)
Definition BaseConfig : Config :=
  {| cfg_extra := ExtraIgnore;
     cfg_allow_mutation := true;
     cfg_frozen := false;
     cfg_validate_assignment := false;
     cfg_allow_population_by_field_name := false;
     cfg_use_enum_values := false |}.

(** An [Enum] class: its members as (name, value) in declaration order. *)
Record enum_class := {
  ename : string;
  members : list (string * string);
}.

Record field_of (T : Type) := Attr {
  fname : string;
  fannot : T;
  finfo : FieldInfo;
}.
Arguments Attr {T}.
Arguments fname {T}.
Arguments fannot {T}.
Arguments finfo {T}.

Record class_of (T : Type) := Class {
  cname : string;
  cconfig : Config;
  cfields : list (field_of T);
}.
Arguments Class {T}.
Arguments cname {T}.
Arguments cconfig {T}.
Arguments cfields {T}.

(** Annotations: [str], [int], [float], [bool], [Any], [dict], [AnyUrl],
    [EmailStr], an [Enum] class, [Optional[t]], [List[t]], [Dict[str, t]],
    [Union[...]] and a [BaseModel] class. *)
Inductive ftype :=
| TStr
| TInt
| TFloat
| TBool
| TAny
| Tdict
| TAnyUrl
| TEmailStr
| TEnum (e : enum_class)
| TOptional (t : ftype)
| TList (t : ftype)
| TDict (t : ftype)
| TUnion (ts : list ftype)
| TModel (c : class_of ftype).

Abbreviation field := (field_of ftype).
Abbreviation model_class := (class_of ftype).

(** [name: T], [name: T = None] and [name: T = Field(...)] *)
Definition ann (name : string) (T : ftype) : field :=
  Attr name T (Field Undefined []).
Definition ann_none (name : string) (T : ftype) : field :=
  Attr name T (Field DefaultNone []).
Definition ann_field (name : string) (T : ftype) (fi : FieldInfo) : field :=
  Attr name T fi.

(** [class name(BaseModel): ...] with no inner [Config] *)
Definition BaseModel (name : string) (fields : list field) : model_class :=
  Class name BaseConfig fields.

(** A subclass starts from the fields of its base; an attribute declared
    again replaces the inherited one at its place, a new one is appended. *)
Fixpoint replace_field (f : field) (fs : list field) : option (list field) :=
  match fs with
  | [] => None
  | g :: rest =>
      if String.eqb (fname f) (fname g) then Some (f :: rest)
      else match replace_field f rest with
           | Some rest' => Some (g :: rest')
           | None => None
           end
  end.

Definition add_field (fs : list field) (f : field) : list field :=
  match replace_field f fs with
  | Some fs' => fs'
  | None => fs ++ [f]
  end.

Definition subclass (name : string) (base : model_class) (own : list field)
  : model_class :=
  Class name (cconfig base) (fold_left add_field own (cfields base)).

(** The key under which an attribute is read from the raw mapping. *)
Definition field_alias (f : field) : string :=
  match fi_alias (finfo f) with
  | Some a => a
  | None => fname f
  end.

(** [None] is accepted where the annotation is [Optional[...]] or [Any], or
    a [Union] with such an alternative. *)
Fixpoint allow_none (T : ftype) : bool :=
  match T with
  | TOptional _ | TAny => true
  | TUnion Ts => existsb allow_none Ts
  | _ => false
  end.

(** An attribute with no default is required unless its annotation accepts
    [None]; [Field(...)] is required; [= None] is not, and allows [None]. *)
Definition field_required (f : field) : bool :=
  match fi_default (finfo f) with
  | Ellipsis => true
  | DefaultNone => false
  | Undefined => negb (allow_none (fannot f))
  end.

Definition field_allow_none (f : field) : bool :=
  allow_none (fannot f) ||
  match fi_default (finfo f) with DefaultNone => true | _ => false end.

(** ** pydantic: instances *)

Inductive value :=
| VNone
| VBool (b : bool)
| VInt (z : Z)
| VFloat (f : pyfloat)
| VStr (s : string)
| VUrl (s : string)                     (* an [AnyUrl] *)
| VEnum (cls name val : string)         (* a member of an [Enum] class *)
| VList (l : list value)
| VDict (m : gmap string value)
| VModel (c : model_class) (d : list (string * value))
| VRaw (j : json).                      (* held as it came: [Any], [dict] *)

(** ** pydantic: errors and warnings *)

Inductive loc_item := Key (k : string) | Index (i : nat).

Inductive err_type :=
| value_error_missing
| type_error_none_not_allowed
| type_error_str
| type_error_integer
| type_error_float
| type_error_bool
| type_error_dict
| type_error_list
| type_error_enum (permitted : list string)
| value_error_url
| value_error_email
| value_error_number_not_ge (limit : Z).

Record error := Err { loc : list loc_item; etype : err_type }.

Inductive result (A : Type) :=
| Ok (a : A)
| Invalid (errors : list error).
Arguments Ok {A}.
Arguments Invalid {A}.

(** What a validation leaves behind: the log lines written and either the
    value or the errors found. *)
Record outcome (A : Type) := Out {
  warnings : list string;
  res : result A;
}.
Arguments Out {A}.
Arguments warnings {A}.
Arguments res {A}.

Definition ok {A} (a : A) : outcome A := Out [] (Ok a).
Definition fail {A} (e : err_type) : outcome A :=
  Out [] (Invalid [Err [] e]).

(** Errors are located relative to the value validated; the enclosing
    attribute, index or key is put in front on the way out. *)
Definition under {A} (i : loc_item) (o : outcome A) : outcome A :=
  Out (warnings o)
      match res o with
      | Ok a => Ok a
      | Invalid es => Invalid (map (λ e, Err (i :: loc e) (etype e)) es)
      end.

Definition omap_out {A B} (f : A → B) (o : outcome A) : outcome B :=
  Out (warnings o)
      match res o with
      | Ok a => Ok (f a)
      | Invalid e => Invalid e
      end.

(** Every element is validated; errors are gathered, not cut short. *)
Fixpoint collect {A} (os : list (outcome A)) : outcome (list A) :=
  match os with
  | [] => ok []
  | o :: rest =>
      let r := collect rest in
      Out (warnings o ++ warnings r)
          match res o, res r with
          | Ok a, Ok l => Ok (a :: l)
          | Ok _, Invalid e => Invalid e
          | Invalid e, Ok _ => Invalid e
          | Invalid e, Invalid e' => Invalid (e ++ e')
          end
  end.

(** A [Union] takes the first alternative that validates; when none does,
    the errors of all of them are reported. *)
Fixpoint first_success {A} (os : list (outcome A)) : outcome A :=
  match os with
  | [] => Out [] (Invalid [])
  | o :: rest =>
      match res o with
      | Ok a => o
      | Invalid e =>
          let r := first_success rest in
          Out (warnings o ++ warnings r)
              match res r with
              | Ok a => Ok a
              | Invalid e' => Invalid (e ++ e')
              end
      end
  end.

End Pydantic.
Export Pydantic.

(** ** pydantic: validators of the scalar types *)

Module Validators.

Definition lower_ascii (c : ascii) : ascii :=
  let n := nat_of_ascii c in
  if (65 <=? n)%nat && (n <=? 90)%nat then ascii_of_nat (n + 32) else c.

Fixpoint lower (s : string) : string :=
  match s with
  | EmptyString => EmptyString
  | String c rest => String (lower_ascii c) (lower rest)
  end.

Definition str_in (s : string) (l : list string) : bool :=
  existsb (String.eqb s) l.

(** [str_validator]: a [str] as it is; [int], [float] (and [bool], an [int]
    in Python) through [str()]; anything else is refused. *)
Definition str_validator (rt : Runtime) (v : json) : option string :=
  match v with
  | JStr s => Some s
  | JInt z => Some (pretty z)
  | JBool b => Some (if b then "True" else "False")
  | JFloat f => Some (py_str_of_float rt f)
  | _ => None
  end.

(** [int_validator]: an [int] that is not a [bool] as it is, otherwise
    [int(v)]. *)
Definition int_validator (rt : Runtime) (v : json) : option Z :=
  match v with
  | JInt z => Some z
  | JBool b => Some (if b then 1 else 0)%Z
  | JFloat f => py_int_of_float rt f
  | JStr s => py_int_of_str rt s
  | _ => None
  end.

(** [float_validator]: a [float] as it is, otherwise [float(v)]. *)
Definition float_validator (rt : Runtime) (v : json) : option pyfloat :=
  match v with
  | JFloat f => Some f
  | JInt z => py_float_of_int rt z
  | JBool b => py_float_of_int rt (if b then 1 else 0)%Z
  | JStr s => py_float_of_str rt s
  | _ => None
  end.

Definition BOOL_FALSE : list string := ["0"; "off"; "f"; "false"; "n"; "no"].
Definition BOOL_TRUE : list string := ["1"; "on"; "t"; "true"; "y"; "yes"].

(** Whether a float equals the integer 0 or 1 (as [0.0 == 0] in Python). *)
Definition float_bit (f : pyfloat) : option bool :=
  match f with
  | SpecFloat.S754_zero _ => Some false
  | SpecFloat.S754_finite false m e =>
      if ((e <=? 0) && (Z.pos m =? 2 ^ (- e)))%Z then Some true else None
  | _ => None
  end.

(** [bool_validator]: [True]/[False]; the numbers 0 and 1; the strings of
    [BOOL_TRUE] and [BOOL_FALSE] in any letter case. *)
Definition bool_validator (v : json) : option bool :=
  match v with
  | JBool b => Some b
  | JInt 0 => Some false
  | JInt 1 => Some true
  | JFloat f => float_bit f
  | JStr s =>
      if str_in (lower s) BOOL_TRUE then Some true
      else if str_in (lower s) BOOL_FALSE then Some false
      else None
  | _ => None
  end.

(** [dict_validator]: a [dict] as it is, otherwise [dict(v)]. *)
Definition dict_validator (rt : Runtime) (v : json)
  : option (gmap string json) :=
  match v with
  | JObj m => Some m
  | _ => py_dict rt v
  end.

(** [enum_member_validator]: the member whose value is [v]. *)
Definition enum_member_validator (e : enum_class) (v : json)
  : option (string * string) :=
  match v with
  | JStr s => List.find (λ m, String.eqb s m.2) (members e)
  | _ => None
  end.

(** [AnyUrl.validate]: [str_validator], then the URL check. *)
Definition AnyUrl_validate (rt : Runtime) (v : json) : option string :=
  match str_validator rt v with
  | Some s => pydantic_AnyUrl rt s
  | None => None
  end.

(** The log line of the stand-in [EmailStr] of [models.py]. *)
Definition email_warning : string :=
  "email-validator not installed, email fields will be treated as str." +:+
  String "010" "To install, run: pip install email-validator".

(** [EmailStr]: with [email_validator] installed it is pydantic's
    ([str_validator], then the address check).  Otherwise it is the class
    the module defines in its [except ImportError] branch, whose only
    validator logs a warning and returns [str(v)]. *)
Definition EmailStr_validate (rt : Runtime) (v : json) : outcome value :=
  if email_validator_installed rt then
    match str_validator rt v with
    | None => fail type_error_str
    | Some s =>
        match pydantic_EmailStr rt s with
        | Some s' => ok (VStr s')
        | None => fail value_error_email
        end
    end
  else
    Out [email_warning]
        (Ok (VStr match v with JStr s => s | _ => py_str rt v end)).

End Validators.
Export Validators.

(** ** pydantic: validation of a value against an annotation *)

Definition of_option {A} (e : err_type) (f : A → value) (o : option A)
  : outcome value :=
  match o with
  | Some a => ok (f a)
  | None => fail e
  end.

(** A constraint [ge] of the [Field] bounds an integer from below. *)
Definition check_ge (fi : FieldInfo) (o : outcome value) : outcome value :=
  match fi_ge fi, res o with
  | Some g, Ok (VInt z) =>
      if (z <? g)%Z
      then Out (warnings o) (Invalid [Err [] (value_error_number_not_ge g)])
      else o
  | _, _ => o
  end.

(** One attribute of a model, given the validator [vT] of its annotation:
    looked up under its alias; when missing, an error if required and the
    default [None] if not; [None] accepted where allowed. *)
Definition validate_field (vT : json → outcome value) (f : field)
    (m : gmap string json) : outcome value :=
  under (Key (field_alias f))
    match m !! field_alias f with
    | None => if field_required f then fail value_error_missing else ok VNone
    | Some JNull =>
        if field_allow_none f then ok VNone
        else fail type_error_none_not_allowed
    | Some v => check_ge (finfo f) (vT v)
    end.

(** The instance is built only when no attribute reported an error. *)
Definition build_model (c : model_class) (os : list (string * outcome value))
  : outcome value :=
  omap_out (λ vs, VModel c (zip (os.*1) vs)) (collect (os.*2)).

Definition build_dict (os : list (string * outcome value)) : outcome value :=
  omap_out (λ vs, VDict (list_to_map (zip (os.*1) vs))) (collect (os.*2)).

(** [None] is settled first: accepted as it is where the annotation allows
    it, an error elsewhere.  Any other value goes to the validator of the
    annotation. *)
Fixpoint validate (rt : Runtime) (T : ftype) (v : json) {struct T}
  : outcome value :=
  if is_null v then
    if allow_none T then ok VNone else fail type_error_none_not_allowed
  else
    match T with
    | TAny => ok (VRaw v)
    | TOptional T' => validate rt T' v
    | TStr => of_option type_error_str VStr (str_validator rt v)
    | TInt => of_option type_error_integer VInt (int_validator rt v)
    | TFloat => of_option type_error_float VFloat (float_validator rt v)
    | TBool => of_option type_error_bool VBool (bool_validator v)
    | Tdict =>
        of_option type_error_dict (λ m, VRaw (JObj m)) (dict_validator rt v)
    | TAnyUrl => of_option value_error_url VUrl (AnyUrl_validate rt v)
    | TEmailStr => EmailStr_validate rt v
    | TEnum e =>
        of_option (type_error_enum (members e).*2)
          (λ m, VEnum (ename e) m.1 m.2) (enum_member_validator e v)
    | TList T' =>
        match v with
        | JArr xs =>
            omap_out VList
              (collect (imap (λ i x, under (Index i) (validate rt T' x)) xs))
        | _ => fail type_error_list
        end
    | TDict T' =>
        match dict_validator rt v with
        | Some m =>
            build_dict
              (map (λ kx, (kx.1, under (Key kx.1) (validate rt T' kx.2)))
                 (map_to_list m))
        | None => fail type_error_dict
        end
    | TUnion Ts => first_success (map (λ T', validate rt T' v) Ts)
    | TModel c =>
        match dict_validator rt v with
        | Some m =>
            build_model c
              (map (λ f, (fname f, validate_field (validate rt (fannot f)) f m))
                 (cfields c))
        | None => fail type_error_dict
        end
    end.

(** The outcomes of the attributes of a class on a raw mapping, in the order
    of declaration. *)
Definition field_outcomes (rt : Runtime) (c : model_class)
    (m : gmap string json) : list (string * outcome value) :=
  map (λ f, (fname f, validate_field (validate rt (fannot f)) f m)) (cfields c).

(** [cls.parse_obj(raw)] *)
Definition parse (rt : Runtime) (c : model_class) (raw : json)
  : outcome value :=
  validate rt (TModel c) raw.

(** ** pydantic: reading and assigning attributes *)

Fixpoint assoc {A} (k : string) (d : list (string * A)) : option A :=
  match d with
  | [] => None
  | (k', a) :: rest => if String.eqb k k' then Some a else assoc k rest
  end.

Fixpoint assoc_set {A} (k : string) (a : A) (d : list (string * A))
  : list (string * A) :=
  match d with
  | [] => [(k, a)]
  | (k', a') :: rest =>
      if String.eqb k k' then (k, a) :: rest else (k', a') :: assoc_set k a rest
  end.

(** [obj.name]: only an instance of a model has attributes; a mapping held
    raw has none ([AttributeError]). *)
Definition getattr (obj : value) (name : string) : option value :=
  match obj with
  | VModel _ d => assoc name d
  | _ => None
  end.

(** [obj[key]] on a validated [Dict] or on a mapping held raw. *)
Definition getitem (obj : value) (key : string) : option value :=
  match obj with
  | VDict m => m !! key
  | VRaw (JObj m) => VRaw <$> m !! key
  | _ => None
  end.

Inductive setattr_error :=
| no_such_field         (* ValueError: object has no field *)
| immutable.            (* TypeError: is immutable *)

Definition has_field (c : model_class) (name : string) : bool :=
  existsb (λ f, String.eqb name (fname f)) (cfields c).

(** [BaseModel.__setattr__]: an undeclared name is refused unless extras are
    allowed; a class with [allow_mutation = False] or [frozen = True] refuses
    every assignment; otherwise the attribute is rebound (and validated
    first only under [validate_assignment], which no class here sets). *)
Definition setattr (obj : value) (name : string) (x : value)
  : setattr_error + value :=
  match obj with
  | VModel c d =>
      let cfg := cconfig c in
      if match cfg_extra cfg with ExtraAllow => false | _ => true end
         && negb (has_field c name)
      then inl no_such_field
      else if negb (cfg_allow_mutation cfg) || cfg_frozen cfg
      then inl immutable
      else inr (VModel c (assoc_set name x d))
  | _ => inl no_such_field
  end.

(** ** Serialisation *)

(** The external key of an attribute of a class. *)
Definition external_name (c : model_class) (name : string) : string :=
  match List.find (λ f, String.eqb name (fname f)) (cfields c) with
  | Some f => field_alias f
  | None => name
  end.

(** Modelled from the spec: the serialiser, which is not in [models.py]
    (the module only declares the classes).  Following section 4.1,
    [serialize] is the inverse mapping of [parse]: it emits every attribute
    under its external key, leaves out an attribute that is absent ([None])
    instead of emitting a null for it, and emits a member of an enumeration
    as its literal string value. *)
Fixpoint serialize (v : value) : json :=
  match v with
  | VNone => JNull
  | VBool b => JBool b
  | VInt z => JInt z
  | VFloat f => JFloat f
  | VStr s => JStr s
  | VUrl s => JStr s
  | VEnum _ _ val => JStr val
  | VList l => JArr (map serialize l)
  | VDict m => JObj (serialize <$> m)
  | VModel c d =>
      JObj (list_to_map
              (omap (λ nx, match nx.2 with
                           | VNone => None
                           | _ => Some (external_name c nx.1, serialize nx.2)
                           end) d))
  | VRaw j => j
  end.

(** ** The declarations of [fastmq/asyncapi/models.py]

    One definition per class, in the order of the module; one line per
    attribute, in the order of the class body: [name: T] is [ann],
    [name: T = None] is [ann_none] and [name: T = Field(d, k=v, ...)] is
    [ann_field] with [Field d [(k, v); ...]], the keywords as written.
    [Schema], [Message] and [Operation] are subclasses.

    The class [Parameter] is named [Parameter_] here, [Parameter] being a
    keyword of Rocq.  Its attribute [schema] has the name of a method of
    [BaseModel]; pydantic 1.x checks for that when it creates the class and
    raises [NameError].  The declarations are embedded as written, for what
    they validate; the check at class creation is not modelled. *)

Module Models.

Definition ExternalDocumentation : model_class :=
  BaseModel "ExternalDocumentation" [
    ann_none "description" (TOptional TStr);
    ann "url" TAnyUrl
  ].

Definition Contact : model_class :=
  BaseModel "Contact" [
    ann_none "name" (TOptional TStr);
    ann_none "url" (TOptional TAnyUrl);
    ann_none "email" (TOptional TEmailStr)
  ].

Definition License : model_class :=
  BaseModel "License" [
    ann "name" TStr;
    ann_none "url" (TOptional TAnyUrl)
  ].

Definition Info : model_class :=
  BaseModel "Info" [
    ann "title" TStr;
    ann_none "description" (TOptional TStr);
    ann_none "termsOfService" (TOptional TStr);
    ann_none "contact" (TOptional (TModel Contact));
    ann_none "license" (TOptional (TModel License));
    ann "version" TStr
  ].

Definition ServerVariable : model_class :=
  BaseModel "ServerVariable" [
    ann_none "enum" (TOptional (TList TStr));
    ann "default" TStr;
    ann_none "description" (TOptional TStr)
  ].

Definition ServerProtocol : enum_class :=
  {| ename := "ServerProtocol";
     members := [
       ("amqp", "amqp");
       ("amqps", "amqps");
       ("http", "http");
       ("https", "https");
       ("jms", "jms");
       ("kafka", "kafka");
       ("kafka_secure", "kafka-secure");
       ("mqtt", "mqtt");
       ("secure_mqtt", "secure-mqtt");
       ("stomp", "stomp");
       ("stomps", "stomps");
       ("ws", "ws");
       ("wss", "wss")
     ] |}.

Definition Server : model_class :=
  BaseModel "Server" [
    ann "url" (TUnion [TAnyUrl; TStr]);
    ann_none "description" (TOptional TStr);
    ann_none "variables" (TOptional (TDict (TModel ServerVariable)));
    ann "protocol" (TEnum ServerProtocol);
    ann "protocolVersion" TStr;
    ann_none "security" (TOptional (TDict (TList TStr)));
    ann_none "bindings" (TOptional (TDict Tdict))
  ].

Definition Reference : model_class :=
  BaseModel "Reference" [
    ann_field "ref" TStr (Field Ellipsis [("alias", JStr "$ref")])
  ].

Definition Discriminator : model_class :=
  BaseModel "Discriminator" [
    ann "propertyName" TStr;
    ann_none "mapping" (TOptional (TDict TStr))
  ].

Definition SchemaBase : model_class :=
  BaseModel "SchemaBase" [
    ann_field "ref" (TOptional TStr) (Field DefaultNone [("alias", JStr "$ref")]);
    ann_none "title" (TOptional TStr);
    ann_none "multipleOf" (TOptional TFloat);
    ann_none "maximum" (TOptional TFloat);
    ann_none "exclusiveMaximum" (TOptional TFloat);
    ann_none "minimum" (TOptional TFloat);
    ann_none "exclusiveMinimum" (TOptional TFloat);
    ann_field "maxLength" (TOptional TInt) (Field DefaultNone [("gte", JInt 0)]);
    ann_field "minLength" (TOptional TInt) (Field DefaultNone [("gte", JInt 0)]);
    ann_none "pattern" (TOptional TStr);
    ann_field "maxItems" (TOptional TInt) (Field DefaultNone [("gte", JInt 0)]);
    ann_field "minItems" (TOptional TInt) (Field DefaultNone [("gte", JInt 0)]);
    ann_none "uniqueItems" (TOptional TBool);
    ann_field "maxProperties" (TOptional TInt)
      (Field DefaultNone [("gte", JInt 0)]);
    ann_field "minProperties" (TOptional TInt)
      (Field DefaultNone [("gte", JInt 0)]);
    ann_none "required" (TOptional (TList TStr));
    ann_none "enum" (TOptional (TList TAny));
    ann_none "type" (TOptional TStr);
    ann_none "allOf" (TOptional (TList TAny));
    ann_none "oneOf" (TOptional (TList TAny));
    ann_none "anyOf" (TOptional (TList TAny));
    ann_field "not_" (TOptional TAny) (Field DefaultNone [("alias", JStr "not")]);
    ann_none "items" (TOptional TAny);
    ann_none "properties" (TOptional (TDict TAny));
    ann_none "additionalProperties" (TOptional (TUnion [TDict TAny; TBool]));
    ann_none "description" (TOptional TStr);
    ann_none "format" (TOptional TStr);
    ann_none "default" (TOptional TAny);
    ann_none "nullable" (TOptional TBool);
    ann_none "discriminator" (TOptional (TModel Discriminator));
    ann_none "readOnly" (TOptional TBool);
    ann_none "writeOnly" (TOptional TBool);
    ann_none "externalDocs" (TOptional (TModel ExternalDocumentation));
    ann_none "example" (TOptional TAny);
    ann_none "deprecated" (TOptional TBool)
  ].

Definition Schema : model_class :=
  subclass "Schema" SchemaBase [
    ann_none "allOf" (TOptional (TList (TModel SchemaBase)));
    ann_none "oneOf" (TOptional (TList (TModel SchemaBase)));
    ann_none "anyOf" (TOptional (TList (TModel SchemaBase)));
    ann_field "not_" (TOptional (TModel SchemaBase))
      (Field DefaultNone [("alias", JStr "not")]);
    ann_none "items" (TOptional (TModel SchemaBase));
    ann_none "properties" (TOptional (TDict (TModel SchemaBase)));
    ann_none "additionalProperties" (TOptional (TUnion [TDict TAny; TBool]))
  ].

Definition Parameter_ : model_class :=
  BaseModel "Parameter" [
    ann_none "location" (TOptional TStr);
    ann_none "description" (TOptional TStr);
    ann_none "schema" (TOptional (TModel Schema))
  ].

Definition Tag : model_class :=
  BaseModel "Tag" [].

Definition Components : model_class :=
  BaseModel "Components" [].

Definition CorrelationID : model_class :=
  BaseModel "CorrelationID" [
    ann_none "description" (TOptional TStr);
    ann "location" TStr
  ].

Definition MessageBase : model_class :=
  BaseModel "MessageBase" [
    ann_none "headers" (TOptional (TUnion [TModel Schema; TModel Reference]));
    ann "payload" TAny;
    ann_none "correlationId"
      (TOptional (TUnion [TModel CorrelationID; TModel Reference]));
    ann_none "schemaFormat" (TOptional TStr);
    ann_none "contentType" (TOptional TStr);
    ann_none "name" (TOptional TStr);
    ann_none "title" (TOptional TStr);
    ann_none "summary" (TOptional TStr);
    ann_none "description" (TOptional TStr);
    ann_none "tags" (TOptional (TList (TModel Tag)));
    ann_none "externalDocs" (TOptional (TModel ExternalDocumentation));
    ann_none "bindings" (TOptional (TDict Tdict));
    ann_none "examples" (TOptional (TDict TAny))
  ].

Definition Message : model_class :=
  subclass "Message" MessageBase [
    ann_none "traits" (TOptional (TList (TModel MessageBase)))
  ].

Definition OperationTrait : model_class :=
  BaseModel "OperationTrait" [
    ann_none "operationId" (TOptional TStr);
    ann_none "summary" (TOptional TStr);
    ann_none "description" (TOptional TStr);
    ann_none "tags" (TOptional (TList (TModel Tag)));
    ann_none "externalDocs" (TOptional (TModel ExternalDocumentation));
    ann_none "bindings" (TOptional (TDict Tdict))
  ].

Definition OperationBase : model_class :=
  BaseModel "OperationBase" [
    ann_none "operationId" (TOptional TStr);
    ann_none "summary" (TOptional TStr);
    ann_none "description" (TOptional TStr);
    ann_none "tags" (TOptional (TList TStr));
    ann_none "externalDocs" (TOptional (TModel ExternalDocumentation));
    ann_none "bindings" (TOptional (TDict Tdict))
  ].

Definition Operation : model_class :=
  subclass "Operation" OperationBase [
    ann_none "traits" (TOptional (TModel OperationBase));
    ann_none "message" (TOptional (TModel Message))
  ].

Definition ChannelItem : model_class :=
  BaseModel "ChannelItem" [
    ann_field "ref" (TOptional TStr) (Field DefaultNone [("alias", JStr "$ref")]);
    ann_none "description" (TOptional TStr);
    ann_none "subscribe" (TOptional (TModel Operation));
    ann_none "publish" (TOptional (TModel Operation));
    ann_none "parameters"
      (TOptional (TDict (TUnion [TModel Parameter_; TModel Reference])));
    ann_none "bindings" (TOptional (TDict Tdict))
  ].

Definition AsyncAPI : model_class :=
  BaseModel "AsyncAPI" [
    ann "asyncapi" TStr;
    ann "id" (TOptional TStr);
    ann "info" (TModel Info);
    ann_none "servers" (TOptional (TList (TModel Server)));
    ann "channels" (TDict (TModel ChannelItem));
    ann_none "components" (TOptional (TModel Components));
    ann_none "tags" (TOptional (TList (TModel Tag)));
    ann_none "externalDocs" (TOptional (TModel ExternalDocumentation))
  ].

(** Every model class of the module. *)
Definition all_models : list model_class :=
  [ExternalDocumentation; Contact; License; Info; ServerVariable; Server;
   Reference; Discriminator; SchemaBase; Schema; Parameter_; Tag; Components;
   CorrelationID; MessageBase; Message; OperationTrait; OperationBase;
   Operation; ChannelItem; AsyncAPI].

End Models.
Export Models.

(** ** A runtime for worked examples *)

Fixpoint has_substring (p s : string) : bool :=
  String.prefix p s ||
  match s with
  | EmptyString => false
  | String _ rest => has_substring p rest
  end.

(** [email_validator] is not installed, a URL is taken to be a string with
    [://] in it, and the conversions of unusual operands all refuse. *)
Definition bare_runtime : Runtime :=
  {| email_validator_installed := false;
     pydantic_EmailStr := λ s, if has_substring "@" s then Some s else None;
     pydantic_AnyUrl := λ s, if has_substring "://" s then Some s else None;
     py_dict := λ _, None;
     py_str := λ _, "";
     py_int_of_str := λ _, None;
     py_int_of_float := λ _, None;
     py_float_of_int := λ _, None;
     py_float_of_str := λ _, None;
     py_str_of_float := λ _, "" |}.

(** ** Documents in normal form

    [normal rt T j]: the raw value [j] is written the way [serialize] writes
    a value of annotation [T].  A scalar already has the declared type; a
    URL or an address is one the validator returns unchanged; a mapping read
    as a model carries only external keys the class declares, none of them
    null, and every required one; a value of a [Union] is in normal form for
    the first alternative that accepts it. *)





(** A class is well formed when no two of its attributes share a name or an
    external key, and so are the classes its annotations mention. *)
Fixpoint wf_type (T : ftype) : bool :=
  match T with
  | TOptional T' | TList T' | TDict T' => wf_type T'
  | TUnion Ts => forallb wf_type Ts
  | TModel c =>
      bool_decide (NoDup (map fname (cfields c)))
      && bool_decide (NoDup (map field_alias (cfields c)))
      && forallb (λ f, wf_type (fannot f)) (cfields c)
  | _ => true
  end.

(** ** Worked documents *)

Module Docs.

(** [{"properties": {"name": {"type": "string"},
                     "tags": {"type": "array", "items": {"type": "string"}}}}] *)
Definition nested_schema : json :=
  JObj {[ "properties" := JObj {[
    "name" := JObj {[ "type" := JStr "string" ]};
    "tags" := JObj {[ "type" := JStr "array";
                      "items" := JObj {[ "type" := JStr "string" ]} ]} ]} ]}.





(** A server over a given transport. *)
Definition server_fields (protocol : string) : gmap string json :=
  {[ "url" := JStr "amqp://broker:5672";
     "protocol" := JStr protocol;
     "protocolVersion" := JStr "0.9.1" ]}.

Definition server (protocol : string) : json :=
  JObj (server_fields protocol).

(** The instance [server "amqp"] parses to, where the URL validates. *)
Definition amqp_server : value :=
  VModel Server
    [("url", VUrl "amqp://broker:5672"); ("description", VNone);
     ("variables", VNone);
     ("protocol", VEnum "ServerProtocol" "amqp" "amqp");
     ("protocolVersion", VStr "0.9.1"); ("security", VNone);
     ("bindings", VNone)].


End Docs.

(** The literal values of [ServerProtocol]. *)
Definition protocols : list string :=
  ["amqp"; "amqps"; "http"; "https"; "jms"; "kafka"; "kafka-secure"; "mqtt";
   "secure-mqtt"; "stomp"; "stomps"; "ws"; "wss"].

(** The attributes of [SchemaBase] declared with [gte=0]. *)
Definition bounded_below : list string :=
  ["maxLength"; "minLength"; "maxItems"; "minItems"; "maxProperties";
   "minProperties"].

(** ** Reading the claims

    [properties["tags"].items] and [properties["tags"].items.type] on an
    instance of [Schema]. *)
Definition tags_items (v : value) : option value :=
  p ← getattr v "properties";
  t ← getitem p "tags";
  getattr t "items".

Definition tags_items_type (v : value) : option value :=
  i ← tags_items v;
  getattr i "type".


(** ** Notions used by the proofs *)



(** The members [serialize] emits for the attribute values [d]. *)
Definition emitted (c : model_class) (d : list (string * value))
  : list (string * json) :=
  omap (λ nx, match nx.2 with
              | VNone => None
              | _ => Some (external_name c nx.1, serialize nx.2)
              end) d.

(** A validated value serialises to null only when it is [None]. *)
Definition never_null (rt : Runtime) (T : ftype) : Prop :=
  ∀ j x, res (validate rt T j) = Ok x →
         x = VNone ∨ is_null (serialize x) = false.

(** ** Notions used by the further properties *)

(** The errors an outcome carries; none when it is a value. *)
Definition errors_of {A} (o : outcome A) : list error :=
  match res o with
  | Ok _ => []
  | Invalid es => es
  end.



Definition missing_at (k : string) : error := Err [Key k] value_error_missing.

(** Whether [EmailStr] occurs in an annotation. *)
Fixpoint mentions_EmailStr (T : ftype) : bool :=
  match T with
  | TEmailStr => true
  | TOptional T' | TList T' | TDict T' => mentions_EmailStr T'
  | TUnion Ts => existsb mentions_EmailStr Ts
  | TModel c => existsb (λ f, mentions_EmailStr (fannot f)) (cfields c)
  | _ => false
  end.

Definition warns_only_for_email (rt : Runtime) (T : ftype) : Prop :=
  ∀ j w, In w (warnings (validate rt T j)) →
         w = email_warning ∧ email_validator_installed rt = false
         ∧ mentions_EmailStr T = true.




(** The attribute [f] validates on the mapping [m]. *)
Definition field_ok (rt : Runtime) (m : gmap string json) (f : field) : Prop :=
  ∃ x, res (validate_field (validate rt (fannot f)) f m) = Ok x.

(** The attributes [Schema] declares again with a narrower annotation. *)
Definition narrowed : list string :=
  ["allOf"; "oneOf"; "anyOf"; "not_"; "items"; "properties"].

(** [g] is the attribute [f] under the same name, either unchanged or, for
    a narrowed attribute, accepting whatever [f] accepts. *)
Definition widens (rt : Runtime) (f g : field) : Prop :=
  fname f = fname g
  ∧ (f = g
     ∨ (In (fname f) narrowed
        ∧ ∀ m, field_ok rt m f → field_ok rt m g)).

(** * Properties *)

(** ** Induction over annotations *)

Lemma ftype_nested_ind (P : ftype → Prop) :
  P TStr → P TInt → P TFloat → P TBool → P TAny → P Tdict → P TAnyUrl →
  P TEmailStr → (∀ e, P (TEnum e)) →
  (∀ T, P T → P (TOptional T)) →
  (∀ T, P T → P (TList T)) →
  (∀ T, P T → P (TDict T)) →
  (∀ Ts, Forall P Ts → P (TUnion Ts)) →
  (∀ c, Forall (λ f, P (fannot f)) (cfields c) → P (TModel c)) →
  ∀ T, P T.
Proof.
  intros HStr HInt HFloat HBool HAny Hdict HUrl HEmail HEnum HOpt HList HDict
    HUnion HModel.
  fix IH 1. intros [| | | | | | | |e|T|T|T|Ts|c];
    [assumption..|apply HEnum|apply HOpt, IH|apply HList, IH|apply HDict, IH| |].
  - apply HUnion. induction Ts as [|T Ts IHTs]; constructor; [apply IH|exact IHTs].
  - apply HModel. destruct c as [n cfg fs]; simpl.
    induction fs as [|[fn T fi] fs IHfs]; constructor; [apply IH|exact IHfs].
Qed.

(** ** Gathering outcomes *)

Lemma collect_Ok {A} (os : list (outcome A)) (xs : list A) :
  res (collect os) = Ok xs ↔ Forall2 (λ o x, res o = Ok x) os xs.
Proof.
  revert xs. induction os as [|o os IH]; intros xs; simpl.
  - split.
    + intros [= <-]. constructor.
    + intros H. inversion H. reflexivity.
  - destruct (res o) as [a|e] eqn:Ho, (res (collect os)) as [l|e'] eqn:Hr.
    + split.
      * intros [= <-]. constructor; [exact Ho|]. apply IH. reflexivity.
      * intros H. inversion H as [|? x ? xs' Hx Hxs]; subst.
        apply IH in Hxs. congruence.
    + split; [discriminate|].
      intros H. inversion H as [|? x ? xs' Hx Hxs]; subst.
      apply IH in Hxs. discriminate.
    + split; [discriminate|].
      intros H. inversion H as [|? x ? xs' Hx Hxs]; subst. congruence.
    + split; [discriminate|].
      intros H. inversion H as [|? x ? xs' Hx Hxs]; subst. congruence.
Qed.

Lemma collect_warnings {A} (os : list (outcome A)) :
  warnings (collect os) = concat (map warnings os).
Proof. induction os as [|o os IH]; simpl; [reflexivity|]. by rewrite IH. Qed.

Lemma collect_Invalid {A} (os : list (outcome A)) o es :
  In o os → res o = Invalid es →
  ∃ es', res (collect os) = Invalid es' ∧ ∀ e, In e es → In e es'.
Proof.
  induction os as [|o' os IH]; intros Hin Ho; [destruct Hin|].
  destruct Hin as [->|Hin]; simpl.
  - rewrite Ho. destruct (res (collect os)) as [l|e'].
    + exists es. auto.
    + exists (es ++ e'). split; [reflexivity|]. intros e He.
      apply in_or_app. auto.
  - destruct (IH Hin Ho) as (es' & Hes' & Hsub). rewrite Hes'.
    destruct (res o') as [a|e0].
    + exists es'. auto.
    + exists (e0 ++ es'). split; [reflexivity|]. intros e He.
      apply in_or_app. auto.
Qed.

Lemma collect_Invalid_inv {A} (os : list (outcome A)) es e :
  res (collect os) = Invalid es → In e es →
  ∃ o es', In o os ∧ res o = Invalid es' ∧ In e es'.
Proof.
  revert es. induction os as [|o os IH]; intros es; simpl; [discriminate|].
  destruct (res o) as [a|e0] eqn:Ho, (res (collect os)) as [l|e'] eqn:Hr;
    intros [= <-] He.
  - destruct (IH _ eq_refl He) as (o' & es' & Hin & Ho' & He').
    exists o', es'. auto.
  - exists o, e0. auto.
  - apply in_app_or in He as [He|He].
    + exists o, e0. auto.
    + destruct (IH _ eq_refl He) as (o' & es' & Hin & Ho' & He').
      exists o', es'. auto.
Qed.

Lemma res_omap_out {A B} (f : A → B) (o : outcome A) b :
  res (omap_out f o) = Ok b ↔ ∃ a, res o = Ok a ∧ b = f a.
Proof.
  unfold omap_out; simpl. destruct (res o) as [a|e].
  - split; [intros [= <-]; eauto|]. intros (a' & [= <-] & ->). reflexivity.
  - split; [discriminate|]. intros (a' & [=] & _).
Qed.

Lemma res_under {A} (i : loc_item) (o : outcome A) a :
  res (under i o) = Ok a ↔ res o = Ok a.
Proof. unfold under; simpl. destruct (res o); split; congruence. Qed.

(** ** Parsing a mapping as a model *)

Lemma parse_obj rt c m :
  parse rt c (JObj m) = build_model c (field_outcomes rt c m).
Proof. reflexivity. Qed.

Lemma build_model_Ok c os v :
  res (build_model c os) = Ok v ↔
  ∃ xs, Forall2 (λ o x, res o = Ok x) (os.*2) xs ∧ v = VModel c (zip (os.*1) xs).
Proof.
  unfold build_model. rewrite res_omap_out.
  split; intros (xs & H & ->); exists xs; (split; [|reflexivity]);
    by apply collect_Ok.
Qed.

Lemma field_outcomes_fst rt c m : (field_outcomes rt c m).*1 = map fname (cfields c).
Proof.
  unfold field_outcomes. induction (cfields c) as [|f fs IH]; simpl;
    [reflexivity|]. f_equal. exact IH.
Qed.

Lemma field_outcomes_snd rt c m :
  (field_outcomes rt c m).*2 =
  map (λ f, validate_field (validate rt (fannot f)) f m) (cfields c).
Proof.
  unfold field_outcomes. induction (cfields c) as [|f fs IH]; simpl;
    [reflexivity|]. f_equal. exact IH.
Qed.

(** A mapping parses exactly when each attribute validates. *)
Lemma parse_obj_Ok rt c m v :
  res (parse rt c (JObj m)) = Ok v ↔
  ∃ xs,
    Forall2 (λ f x, res (validate_field (validate rt (fannot f)) f m) = Ok x)
      (cfields c) xs
    ∧ v = VModel c (zip (map fname (cfields c)) xs).
Proof.
  rewrite parse_obj, build_model_Ok, field_outcomes_fst, field_outcomes_snd.
  split; intros (xs & H & ->); exists xs; (split; [|reflexivity]).
  - by apply Forall2_fmap_l in H.
  - by apply Forall2_fmap_l.
Qed.


Lemma validate_field_present vT (f : field) (m : gmap string json) v :
  m !! field_alias f = Some v → is_null v = false →
  validate_field vT f m = under (Key (field_alias f)) (check_ge (finfo f) (vT v)).
Proof. intros Hm Hv. unfold validate_field. rewrite Hm. by destruct v. Qed.

Lemma validate_field_absent vT (f : field) (m : gmap string json) :
  m !! field_alias f = None → field_required f = false →
  validate_field vT f m = ok VNone.
Proof. intros Hm Hr. unfold validate_field. rewrite Hm, Hr. reflexivity. Qed.

(** An error of an attribute is an error of the whole parse. *)
Lemma field_error rt c m f es :
  In f (cfields c) →
  res (validate_field (validate rt (fannot f)) f m) = Invalid es →
  ∃ es', res (parse rt c (JObj m)) = Invalid es' ∧ ∀ e, In e es → In e es'.
Proof.
  intros Hin Hf. rewrite parse_obj. unfold build_model.
  destruct (collect_Invalid (field_outcomes rt c m).*2
              (validate_field (validate rt (fannot f)) f m) es)
    as (es' & Hes' & Hsub); [|exact Hf|].
  - rewrite field_outcomes_snd.
    apply (in_map (λ f, validate_field (validate rt (fannot f)) f m)), Hin.
  - exists es'. unfold omap_out; simpl. rewrite Hes'. auto.
Qed.

Lemma parse_obj_Ok_field rt c m v f :
  res (parse rt c (JObj m)) = Ok v → In f (cfields c) →
  ∃ x, res (validate_field (validate rt (fannot f)) f m) = Ok x.
Proof.
  rewrite parse_obj_Ok. intros (xs & H & _) Hin.
  induction H as [|f' x fs xs' Hx _ IH]; [destruct Hin|].
  destruct Hin as [->|Hin]; eauto.
Qed.

Lemma validate_enum_Ok rt e j x :
  res (validate rt (TEnum e) j) = Ok x →
  ∃ n s, j = JStr s ∧ In (n, s) (members e) ∧ x = VEnum (ename e) n s.
Proof.
  destruct j as [| | | |s| |]; simpl; try discriminate.
  destruct (find _ _) as [[n s']|] eqn:Hfind; simpl; [|discriminate].
  intros [= <-]. apply find_some in Hfind as [Hin Heq].
  apply String.eqb_eq in Heq. simpl in Heq. subst s'. eauto.
Qed.

Lemma validate_enum_unknown rt e s :
  ¬ In s (members e).*2 →
  validate rt (TEnum e) (JStr s) = fail (type_error_enum (members e).*2).
Proof.
  intros Hs. simpl. destruct (find _ _) as [[n s']|] eqn:Hfind; [|reflexivity].
  apply find_some in Hfind as [Hin Heq]. apply String.eqb_eq in Heq.
  simpl in Heq. subst s'. destruct Hs.
  apply (in_map snd) in Hin. exact Hin.
Qed.

Lemma validate_field_Ok_required vT (f : field) (m : gmap string json) x :
  field_required f = true → field_allow_none f = false →
  res (validate_field vT f m) = Ok x →
  ∃ j, m !! field_alias f = Some j ∧ is_null j = false
       ∧ res (check_ge (finfo f) (vT j)) = Ok x.
Proof.
  intros Hreq Hnone. unfold validate_field. rewrite res_under.
  destruct (m !! field_alias f) as [j|]; [|by rewrite Hreq].
  destruct j; try (by rewrite Hnone); eauto.
Qed.

(** ** Documents in normal form survive the round trip *)

Lemma validate_null rt T :
  validate rt T JNull
  = if allow_none T then ok VNone else fail type_error_none_not_allowed.
Proof. by destruct T. Qed.









Lemma find_field (fs : list field) (f : field) :
  NoDup (map fname fs) → In f fs →
  find (λ g, String.eqb (fname f) (fname g)) fs = Some f.
Proof.
  induction fs as [|g fs IH]; intros Hnd Hin; [destruct Hin|].
  simpl in Hnd. apply NoDup_cons in Hnd as [Hg Hnd]. simpl.
  destruct Hin as [->|Hin].
  - by rewrite String.eqb_refl.
  - destruct (String.eqb (fname f) (fname g)) eqn:E; [|by apply IH].
    apply String.eqb_eq in E. destruct Hg. rewrite <- E.
    apply list_elem_of_In. apply in_map. exact Hin.
Qed.

Lemma external_name_field (c : model_class) (f : field) :
  NoDup (map fname (cfields c)) → In f (cfields c) →
  external_name c (fname f) = field_alias f.
Proof. intros Hnd Hin. unfold external_name. by rewrite find_field. Qed.

Lemma serialize_model c d :
  serialize (VModel c d) = JObj (list_to_map (emitted c d)).
Proof. reflexivity. Qed.

Lemma emitted_cons c n x d :
  emitted c ((n, x) :: d)
  = match x with
    | VNone => emitted c d
    | _ => (external_name c n, serialize x) :: emitted c d
    end.
Proof. by destruct x. Qed.







(** ** What serialisation emits *)

Lemma first_success_Ok {A} (os : list (outcome A)) x :
  res (first_success os) = Ok x → ∃ o, In o os ∧ res o = Ok x.
Proof.
  induction os as [|o os IH]; simpl; [discriminate|].
  destruct (res o) as [a|e] eqn:Ho.
  - intros Hx. exists o. split; [by left|congruence].
  - simpl. destruct (res (first_success os)) as [a|e']; [|discriminate].
    intros [= <-]. destruct (IH eq_refl) as (o' & Hin & Ho').
    exists o'. split; [by right|done].
Qed.

Lemma validate_null_Ok rt T x : res (validate rt T JNull) = Ok x → x = VNone.
Proof.
  rewrite validate_null. destruct (allow_none T); [by intros [= <-]|discriminate].
Qed.

Ltac scalar_never_null :=
  cbn; unfold of_option;
  repeat match goal with
         | |- context [match ?o with Some _ => _ | None => _ end] => destruct o
         end;
  cbn; first [discriminate | intros [= <-]; by right].

Lemma validate_never_null rt T : never_null rt T.
Proof.
  induction T as [| | | | | | | |e|T IH|T IH|T IH|Ts IH|c IH]
    using ftype_nested_ind; intros j x;
    (destruct (is_null j) eqn:Hnull;
     [destruct j; try discriminate; intros Hx; left;
      by apply validate_null_Ok in Hx|]).
  - destruct j; try discriminate; scalar_never_null.
  - destruct j; try discriminate; scalar_never_null.
  - destruct j; try discriminate; scalar_never_null.
  - destruct j; try discriminate; scalar_never_null.
  - destruct j; try discriminate; scalar_never_null.
  - destruct j; try discriminate; scalar_never_null.
  - destruct j; try discriminate; unfold validate, AnyUrl_validate; scalar_never_null.
  - destruct j; try discriminate; unfold validate, EmailStr_validate;
      destruct (email_validator_installed rt); scalar_never_null.
  - destruct j; try discriminate; scalar_never_null.
  - intros Hx. apply (IH j x). by destruct j.
  - destruct j; try discriminate; cbn; try discriminate.
    unfold omap_out; cbn. destruct (res _); [|discriminate].
    intros [= <-]. by right.
  - destruct j; try discriminate; cbn; unfold build_dict, omap_out; cbn;
      repeat match goal with
             | |- context [match ?o with Some _ => _ | None => _ end] => destruct o
             | |- context [match res ?o with Ok _ => _ | Invalid _ => _ end] => destruct (res o)
             end; cbn; first [discriminate | intros [= <-]; by right].
  - intros Hx.
    assert (res (first_success (map (λ T', validate rt T' j) Ts)) = Ok x)
      as Hx' by (by destruct j).
    apply first_success_Ok in Hx' as (o & Hin & Ho).
    apply in_map_iff in Hin as (T & <- & HT).
    rewrite Forall_forall in IH. apply (IH T (proj2 (list_elem_of_In _ _) HT) j x Ho).
  - destruct j; try discriminate; cbn; unfold build_model, omap_out; cbn;
      repeat match goal with
             | |- context [match ?o with Some _ => _ | None => _ end] => destruct o
             | |- context [match res ?o with Ok _ => _ | Invalid _ => _ end] => destruct (res o)
             end; cbn; first [discriminate | intros [= <-]; by right].
Qed.

Lemma validate_field_never_null rt (f : field) (m : gmap string json) x :
  res (validate_field (validate rt (fannot f)) f m) = Ok x →
  x = VNone ∨ is_null (serialize x) = false.
Proof.
  unfold validate_field. rewrite res_under.
  destruct (m !! field_alias f) as [j|].
  - assert (res (check_ge (finfo f) (validate rt (fannot f) j)) = Ok x →
            x = VNone ∨ is_null (serialize x) = false) as Hc.
    { unfold check_ge. destruct (fi_ge (finfo f)) as [g|];
        [|apply validate_never_null].
      destruct (res (validate rt (fannot f) j)) as [y|e] eqn:Hy;
        [|by rewrite Hy].
      destruct y; try (rewrite Hy; intros [= <-]; by right).
      - rewrite Hy. intros [= <-]. by left.
      - destruct (z <? g)%Z; [discriminate|].
        rewrite Hy. intros [= <-]. by right.
      - rewrite Hy. intros [= <-]. by apply (validate_never_null rt (fannot f) j). }
    destruct j; try exact Hc.
    destruct (field_allow_none f); [intros [= <-]; by left|discriminate].
  - destruct (field_required f); [discriminate|intros [= <-]; by left].
Qed.

(** Parsing anything reduces to parsing a mapping. *)
Lemma parse_Ok_obj rt c raw v :
  res (parse rt c raw) = Ok v → ∃ m, res (parse rt c (JObj m)) = Ok v.
Proof.
  unfold parse. destruct raw; cbn; try discriminate;
    try (destruct (py_dict rt _) as [m|]; [|discriminate]; intros H; by exists m).
  intros H. by eexists.
Qed.

Section emitted.
Context (c : model_class).

Lemma emitted_keys (fs : list field) xs k :
  (∀ f, In f fs → external_name c (fname f) = field_alias f) →
  k ∉ map field_alias fs →
  (list_to_map (emitted c (zip (map fname fs) xs)) : gmap string json) !! k
  = None.
Proof.
  revert xs. induction fs as [|f fs IH]; intros xs Hext Hk.
  - apply lookup_empty.
  - destruct xs as [|x xs]; [apply lookup_empty|].
    change (zip (map fname (f :: fs)) (x :: xs))
      with ((fname f, x) :: zip (map fname fs) xs).
    rewrite emitted_cons.
    apply not_elem_of_cons in Hk as [Hk1 Hk2].
    assert (list_to_map (emitted c (zip (map fname fs) xs)) !! k
            = (None : option json)) as Hrest
      by (apply IH; [intros g Hg; apply Hext; by right|done]).
    destruct x; try exact Hrest;
      (rewrite list_to_map_cons, lookup_insert_ne;
       [exact Hrest|rewrite Hext by (by left); congruence]).
Qed.

Lemma emitted_values (fs : list field) xs k y :
  (list_to_map (emitted c (zip (map fname fs) xs)) : gmap string json) !! k
  = Some y →
  ∃ x, In x xs ∧ x ≠ VNone ∧ y = serialize x.
Proof.
  revert xs. induction fs as [|f fs IH]; intros xs.
  - intros H. vm_compute in H. discriminate.
  - destruct xs as [|x xs]; [intros H; vm_compute in H; discriminate|].
    change (zip (map fname (f :: fs)) (x :: xs))
      with ((fname f, x) :: zip (map fname fs) xs).
    rewrite emitted_cons.
    assert ((list_to_map (emitted c (zip (map fname fs) xs))
               : gmap string json) !! k = Some y →
            ∃ x0, In x0 (x :: xs) ∧ x0 ≠ VNone ∧ y = serialize x0) as Hrest.
    { intros H. destruct (IH xs H) as (x0 & Hin & Hx0). exists x0.
      split; [by right|done]. }
    destruct x; try exact Hrest;
      (rewrite list_to_map_cons;
       destruct (decide (external_name c (fname f) = k)) as [<-|Hne];
       [rewrite lookup_insert_eq; intros [= <-]; eexists;
        split; [by left|split; [discriminate|reflexivity]]
       |rewrite lookup_insert_ne by done; exact Hrest]).
Qed.

Lemma emitted_field (fs : list field) xs f x :
  (∀ f, In f fs → external_name c (fname f) = field_alias f) →
  NoDup (map fname fs) → NoDup (map field_alias fs) →
  In f fs → assoc (fname f) (zip (map fname fs) xs) = Some x →
  (list_to_map (emitted c (zip (map fname fs) xs)) : gmap string json)
    !! field_alias f
  = match x with VNone => None | _ => Some (serialize x) end.
Proof.
  revert xs. induction fs as [|g fs IH]; intros xs Hext Hn Ha Hin;
    [destruct Hin|].
  destruct xs as [|x0 xs]; [discriminate|].
  change (zip (map fname (g :: fs)) (x0 :: xs))
    with ((fname g, x0) :: zip (map fname fs) xs).
  simpl in Hn, Ha. apply NoDup_cons in Hn as [Hn1 Hn], Ha as [Ha1 Ha].
  assert (∀ f, In f fs → external_name c (fname f) = field_alias f) as Hext'
    by (intros h Hh; apply Hext; by right).
  rewrite emitted_cons. cbn [assoc].
  destruct (String.eqb (fname f) (fname g)) eqn:E.
  - apply String.eqb_eq in E. intros [= ->].
    assert (f = g) as ->.
    { destruct Hin as [->|Hin]; [done|]. destruct Hn1. rewrite <- E.
      apply list_elem_of_In. by apply in_map. }
    rewrite Hext by (by left).
    destruct x; try (by rewrite list_to_map_cons, lookup_insert_eq).
    by apply emitted_keys.
  - intros Hx. destruct Hin as [->|Hin]; [by rewrite String.eqb_refl in E|].
    assert (field_alias f ≠ field_alias g) as Hne.
    { intros Heq. destruct Ha1. rewrite <- Heq.
      apply list_elem_of_In. by apply in_map. }
    specialize (IH xs Hext' Hn Ha Hin Hx).
    destruct x0; try exact IH;
      (rewrite list_to_map_cons, lookup_insert_ne;
       [exact IH|rewrite Hext by (by left); congruence]).
Qed.
End emitted.

Lemma all_models_wf : Forall (λ c, wf_type (TModel c) = true) all_models.
Proof. repeat constructor. Qed.

Lemma wf_model_NoDup c :
  wf_type (TModel c) = true →
  NoDup (map fname (cfields c)) ∧ NoDup (map field_alias (cfields c)).
Proof.
  cbn. intros H. apply andb_true_iff in H as [H _].
  apply andb_true_iff in H as [H1 H2].
  by apply bool_decide_eq_true in H1, H2.
Qed.

(** ** Errors, warnings and assignment *)

Lemma under_loc {A} (i : loc_item) (o : outcome A) es e :
  res (under i o) = Invalid es → In e es → ∃ l, loc e = i :: l.
Proof.
  unfold under; simpl. destruct (res o) as [a|es']; [discriminate|].
  intros [= <-] He. apply in_map_iff in He as (e' & <- & _). simpl. eauto.
Qed.

Lemma res_omap_out_Invalid {A B} (f : A → B) (o : outcome A) es :
  res (omap_out f o) = Invalid es ↔ res o = Invalid es.
Proof. unfold omap_out; simpl. destruct (res o); split; congruence. Qed.

Lemma validate_field_loc vT (f : field) (m : gmap string json) es e :
  res (validate_field vT f m) = Invalid es → In e es →
  ∃ l, loc e = Key (field_alias f) :: l.
Proof. apply under_loc. Qed.

Lemma validate_field_ext vT (f : field) (m m' : gmap string json) :
  m !! field_alias f = m' !! field_alias f →
  validate_field vT f m = validate_field vT f m'.
Proof. unfold validate_field. by intros ->. Qed.

Lemma warnings_parse_obj rt c m :
  warnings (parse rt c (JObj m))
  = concat (map (λ f, warnings (validate_field (validate rt (fannot f)) f m))
              (cfields c)).
Proof.
  rewrite parse_obj. unfold build_model, omap_out; simpl.
  rewrite collect_warnings, field_outcomes_snd, map_map. reflexivity.
Qed.

Lemma all_models_BaseConfig c : In c all_models → cconfig c = BaseConfig.
Proof. intros Hc. repeat (destruct Hc as [<-|Hc]; [reflexivity|]). destruct Hc. Qed.

Lemma assoc_assoc_set {A} k (a : A) d : assoc k (assoc_set k a d) = Some a.
Proof.
  induction d as [|[k' a'] d IH]; simpl.
  - by rewrite String.eqb_refl.
  - destruct (String.eqb k k') eqn:E; simpl; [by rewrite String.eqb_refl|].
    by rewrite E.
Qed.

Lemma assoc_assoc_set_ne {A} k k' (a : A) d :
  k ≠ k' → assoc k' (assoc_set k a d) = assoc k' d.
Proof.
  intros Hne. induction d as [|[k0 a0] d IH]; simpl.
  - destruct (String.eqb k' k) eqn:E; [|done].
    apply String.eqb_eq in E. congruence.
  - destruct (String.eqb k k0) eqn:E; simpl.
    + apply String.eqb_eq in E. subst k0.
      destruct (String.eqb k' k) eqn:E'; [|done].
      apply String.eqb_eq in E'. congruence.
    + by rewrite IH.
Qed.


(** * The claims of the specification *)

(** ** C1: the round trip *)




(** Beside undeclared keys: a mapping that only holds ["$ref"] is taken by
    [Parameter], the first alternative of [Union[Parameter, Reference]] and a
    class whose attributes are all optional; it declares no such key, so the
    reference is dropped and never reaches [Reference]. *)
Lemma parameter_takes_reference rt :
  validate rt (TUnion [TModel Parameter_; TModel Reference])
    (JObj {[ "$ref" := JStr "#/components/parameters/p" ]})
  = ok (VModel Parameter_
          [("location", VNone); ("description", VNone); ("schema", VNone)]).
Proof. vm_compute. reflexivity. Qed.

(** ** C2: nested schemas *)

(** C2, as stated, fails: on the very document of the claim the parse
    succeeds, but [properties["tags"].items] is the raw mapping
    [{"type": "string"}], not an instance of [SchemaBase]; it has no
    attribute [type], and the path of the claim does not evaluate to
    ["string"]. *)
Lemma nested_schema_counterexample :
  ∃ v, parse bare_runtime Schema Docs.nested_schema = ok v
       ∧ tags_items v = Some (VRaw (JObj {[ "type" := JStr "string" ]}))
       ∧ tags_items_type v = None
       ∧ tags_items_type v ≠ Some (VStr "string").
Proof.
  eexists. split; [vm_compute; reflexivity|].
  split; [vm_compute; reflexivity|].
  split; [vm_compute; reflexivity|]. vm_compute. discriminate.
Qed.

(** C2, amended: the document parses; [properties["tags"]] and
    [properties["name"]] are instances of [SchemaBase] whose [type] is
    ["array"] and ["string"]; one level further down, [items] of
    [properties["tags"]] is held as the raw mapping [{"type": "string"}]
    ([SchemaBase] annotates it [Any]): it has no attributes, and its entry
    ["type"] is the raw string ["string"]. *)
Theorem nested_schema_one_level rt :
  ∃ v tags name,
    parse rt Schema Docs.nested_schema = ok v
    ∧ (getattr v "properties" ≫= λ p, getitem p "tags") = Some tags
    ∧ (getattr v "properties" ≫= λ p, getitem p "name") = Some name
    ∧ (∃ d, tags = VModel SchemaBase d)
    ∧ getattr tags "type" = Some (VStr "array")
    ∧ getattr name "type" = Some (VStr "string")
    ∧ getattr tags "items" = Some (VRaw (JObj {[ "type" := JStr "string" ]}))
    ∧ (getattr tags "items" ≫= λ i, getattr i "type") = None
    ∧ (getattr tags "items" ≫= λ i, getitem i "type")
      = Some (VRaw (JStr "string")).
Proof.
  eexists _, _, _. split; [vm_compute; reflexivity|].
  split; [vm_compute; reflexivity|]. split; [vm_compute; reflexivity|].
  split; [eexists; vm_compute; reflexivity|].
  repeat split; vm_compute; reflexivity.
Qed.

(** ** C3: numeric lower bounds *)

(** C3 on the code: a [Schema] with [minLength: -1] parses, and keeps the
    value -1; so does any integer under any of the six attributes declared
    with [gte=0]. *)
Theorem negative_bounds_accepted rt :
  (∃ v, parse rt Schema (JObj {[ "minLength" := JInt (-1) ]}) = ok v
        ∧ getattr v "minLength" = Some (VInt (-1)))
  ∧ Forall (λ k, ∀ z, ∃ v, parse rt Schema (JObj {[ k := JInt z ]}) = ok v
                           ∧ getattr v k = Some (VInt z)) bounded_below.
Proof.
  split.
  - eexists. split; vm_compute; reflexivity.
  - repeat constructor; intros z; eexists; split; vm_compute; reflexivity.
Qed.

(** The keyword [gte] is not one pydantic knows: it lands in [extra] and
    sets no bound, where [ge] would. *)
Lemma gte_is_no_constraint :
  fi_ge (Field DefaultNone [("gte", JInt 0)]) = None
  ∧ fi_extra (Field DefaultNone [("gte", JInt 0)]) = [("gte", JInt 0)]
  ∧ fi_ge (Field DefaultNone [("ge", JInt 0)]) = Some 0%Z.
Proof. repeat split. Qed.

(** With [ge=0] a negative value is refused. *)
Lemma ge_rejects_negative z :
  (z < 0)%Z →
  check_ge (Field DefaultNone [("ge", JInt 0)]) (ok (VInt z))
  = Out [] (Invalid [Err [] (value_error_number_not_ge 0)]).
Proof.
  intros Hz. unfold check_ge. cbn.
  destruct (Z.ltb_spec z 0); [reflexivity|lia].
Qed.

(** ** C4: the alias of [ref] *)

(** C4: a raw mapping whose key ["$ref"] holds a string [s] (in particular
    ["#/components/schemas/Foo"]) parses as a [Reference] whose attribute
    [ref] is [s]; serialising it emits the key ["$ref"] with [s] and no key
    ["ref"]. *)
Theorem reference_alias rt (m : gmap string json) s :
  m !! "$ref" = Some (JStr s) →
  ∃ v, parse rt Reference (JObj m) = ok v
       ∧ getattr v "ref" = Some (VStr s)
       ∧ serialize v = JObj {[ "$ref" := JStr s ]}
       ∧ ∀ o, serialize v = JObj o → o !! "$ref" = Some (JStr s) ∧ o !! "ref" = None.
Proof.
  intros Hm. exists (VModel Reference [("ref", VStr s)]).
  split; [|split; [reflexivity|split; [reflexivity|]]].
  - rewrite parse_obj. unfold build_model, field_outcomes.
    cbn [cfields Reference BaseModel map].
    rewrite (validate_field_present _ _ m (JStr s)); [reflexivity|exact Hm|reflexivity].
  - intros o [= <-]. split; reflexivity.
Qed.

(** The reference of the claim. *)
Lemma reference_alias_witness :
  ∃ v, parse bare_runtime Reference
         (JObj {[ "$ref" := JStr "#/components/schemas/Foo" ]}) = ok v
       ∧ getattr v "ref" = Some (VStr "#/components/schemas/Foo")
       ∧ serialize v = JObj {[ "$ref" := JStr "#/components/schemas/Foo" ]}
       ∧ ∀ o, serialize v = JObj o →
              o !! "$ref" = Some (JStr "#/components/schemas/Foo")
              ∧ o !! "ref" = None.
Proof.
  apply (reference_alias bare_runtime
           {[ "$ref" := JStr "#/components/schemas/Foo" ]}
           "#/components/schemas/Foo").
  reflexivity.
Defined.

(** ** C5: absent attributes and enumerations in the output *)

(** C5: for every class of the module and every model parsed with it (a
    nested record is itself the result of parsing with its class), the
    serialised mapping holds no null member; an attribute that is absent
    ([None]) has no key in it; an attribute holding a member of an
    enumeration is emitted as the literal string value of the member. *)
Theorem serialize_omits_absent rt c raw v :
  In c all_models → res (parse rt c raw) = Ok v →
  ∃ o, serialize v = JObj o
       ∧ (∀ k, o !! k ≠ Some JNull)
       ∧ (∀ f, In f (cfields c) → getattr v (fname f) = Some VNone →
               o !! field_alias f = None)
       ∧ (∀ f cls n s, In f (cfields c) →
               getattr v (fname f) = Some (VEnum cls n s) →
               o !! field_alias f = Some (JStr s)).
Proof.
  intros Hc Hv. apply parse_Ok_obj in Hv as (m & Hv).
  apply parse_obj_Ok in Hv as (xs & Hxs & ->).
  pose proof all_models_wf as Hwf. rewrite Forall_forall in Hwf.
  destruct (wf_model_NoDup c) as [Hn Ha];
    [by apply Hwf, list_elem_of_In|].
  assert (∀ f, In f (cfields c) → external_name c (fname f) = field_alias f)
    as Hext by (intros f Hf; by apply external_name_field).
  eexists. split; [apply serialize_model|]. split; [|split].
  - intros k Hk. apply emitted_values in Hk as (x & Hin & Hx & Hnull).
    apply list_elem_of_In, list_elem_of_lookup in Hin as (i & Hi).
    destruct (Forall2_lookup_r _ _ _ _ _ Hxs Hi) as (f & _ & Hf).
    apply validate_field_never_null in Hf as [->|Hf]; [done|].
    rewrite <- Hnull in Hf. discriminate.
  - intros f Hf Hget. cbn [getattr] in Hget.
    by rewrite (emitted_field c _ _ f VNone).
  - intros f cls n s Hf Hget. cbn [getattr] in Hget.
    by rewrite (emitted_field c _ _ f (VEnum cls n s)).
Qed.

(** The server [Docs.server "amqp"], parsed and serialised. *)
Lemma serialize_omits_absent_witness :
  ∃ o, serialize Docs.amqp_server = JObj o
       ∧ (∀ k, o !! k ≠ Some JNull)
       ∧ (∀ f, In f (cfields Server) →
               getattr Docs.amqp_server (fname f) = Some VNone →
               o !! field_alias f = None)
       ∧ (∀ f cls n s, In f (cfields Server) →
               getattr Docs.amqp_server (fname f) = Some (VEnum cls n s) →
               o !! field_alias f = Some (JStr s)).
Proof.
  apply (serialize_omits_absent bare_runtime Server (Docs.server "amqp")).
  - do 5 right. left. reflexivity.
  - vm_compute. reflexivity.
Defined.

(** ** C6: the protocols of a server *)

(** C6: a raw mapping parses as a [Server] only if its [protocol] is one of
    the thirteen literal strings, and the attribute is then the member with
    that value; with any other string the parse fails with an error located
    at [protocol]; ["amqp"] parses and ["carrier-pigeon"] does not. *)
Theorem server_protocol_closed rt (m : gmap string json) :
  (∀ v, res (parse rt Server (JObj m)) = Ok v →
        ∃ n s, In s protocols ∧ m !! "protocol" = Some (JStr s)
               ∧ getattr v "protocol" = Some (VEnum "ServerProtocol" n s))
  ∧ (∀ s, m !! "protocol" = Some (JStr s) → ¬ In s protocols →
        ∃ es, res (parse rt Server (JObj m)) = Invalid es
              ∧ In (Err [Key "protocol"] (type_error_enum protocols)) es)
  ∧ (∃ w v, parse rt Server (Docs.server "amqp") = Out w (Ok v)
            ∧ getattr v "protocol" = Some (VEnum "ServerProtocol" "amqp" "amqp"))
  ∧ (∃ w es, parse rt Server (Docs.server "carrier-pigeon") = Out w (Invalid es)
             ∧ In (Err [Key "protocol"] (type_error_enum protocols)) es).
Proof.
  split; [|split; [|split]].
  - intros v Hv. apply parse_obj_Ok in Hv as (xs & H & ->).
    cbn [cfields Server BaseModel] in H.
    do 4 (let x := fresh "x" in let Hx := fresh "Hx" in
          inversion H as [|? x ? ? Hx H']; subst; clear H; rename H' into H).
    apply validate_field_Ok_required in Hx2 as (j & Hm & _ & Hj);
      [|reflexivity..].
    cbn [check_ge finfo ann Field fi_ge kwarg fannot] in Hj.
    apply validate_enum_Ok in Hj as (n & s & -> & Hin & ->).
    exists n, s. split; [|split; [exact Hm|reflexivity]].
    apply (in_map snd) in Hin. exact Hin.
  - intros s Hm Hs.
    destruct (field_error rt Server m (ann "protocol" (TEnum ServerProtocol))
                [Err [Key "protocol"] (type_error_enum protocols)])
      as (es & Hes & Hsub).
    + cbn. tauto.
    + rewrite (validate_field_present _ (ann "protocol" (TEnum ServerProtocol))
                 m (JStr s) Hm eq_refl).
      cbn [check_ge finfo ann Field fi_ge kwarg fannot].
      rewrite validate_enum_unknown; [reflexivity|exact Hs].
    + exists es. split; [exact Hes|]. apply Hsub. left. reflexivity.
  - destruct rt as [inst email url dict str ios iof foi fos sof].
    destruct (url "amqp://broker:5672") as [u|] eqn:Hu.
    + exists [], (VModel Server
        [("url", VUrl u); ("description", VNone); ("variables", VNone);
         ("protocol", VEnum "ServerProtocol" "amqp" "amqp");
         ("protocolVersion", VStr "0.9.1"); ("security", VNone);
         ("bindings", VNone)]).
      split; [|reflexivity]. vm_compute. rewrite Hu. reflexivity.
    + exists [], (VModel Server
        [("url", VStr "amqp://broker:5672"); ("description", VNone);
         ("variables", VNone);
         ("protocol", VEnum "ServerProtocol" "amqp" "amqp");
         ("protocolVersion", VStr "0.9.1"); ("security", VNone);
         ("bindings", VNone)]).
      split; [|reflexivity]. vm_compute. rewrite Hu. reflexivity.
  - destruct rt as [inst email url dict str ios iof foi fos sof].
    exists [], [Err [Key "protocol"] (type_error_enum protocols)].
    split; [|left; reflexivity].
    vm_compute. destruct (url _); reflexivity.
Qed.

(** The two servers of the claim. *)
Lemma server_protocol_closed_witness :
  (∃ n s, In s protocols
          ∧ Docs.server_fields "amqp" !! "protocol" = Some (JStr s)
          ∧ getattr Docs.amqp_server "protocol"
            = Some (VEnum "ServerProtocol" n s))
  ∧ ∃ es, res (parse bare_runtime Server (Docs.server "carrier-pigeon"))
          = Invalid es
          ∧ In (Err [Key "protocol"] (type_error_enum protocols)) es.
Proof.
  split.
  - destruct (server_protocol_closed bare_runtime (Docs.server_fields "amqp"))
      as (H & _).
    apply H. vm_compute. reflexivity.
  - destruct (server_protocol_closed bare_runtime
                (Docs.server_fields "carrier-pigeon")) as (_ & H & _).
    apply (H "carrier-pigeon"); [reflexivity|].
    vm_compute. intuition discriminate.
Defined.

(** ** C7: [info] is mandatory *)



(** ** C8: assignment *)

(** C8, as stated, fails: an instance obtained from the parse is changed by
    an assignment to one of its attributes. *)
Lemma entities_mutable_counterexample :
  ∃ v v',
    parse bare_runtime ExternalDocumentation
      (JObj {[ "url" := JStr "https://example.com/docs" ]}) = ok v
    ∧ getattr v "description" = Some VNone
    ∧ setattr v "description" (VStr "changed") = inr v'
    ∧ getattr v' "description" = Some (VStr "changed").
Proof.
  eexists _, _. split; [vm_compute; reflexivity|].
  split; [reflexivity|]. split; reflexivity.
Qed.

(** C8, amended: no class of the module is frozen (each keeps pydantic's
    default configuration), so on an instance of any of them an assignment to
    a declared attribute rebinds that attribute, unvalidated, and leaves the
    others as they were; only an assignment to a name the class does not
    declare is refused. *)
Theorem assignment_rebinds c d name x :
  In c all_models →
  setattr (VModel c d) name x
  = (if has_field c name then inr (VModel c (assoc_set name x d))
     else inl no_such_field)
  ∧ getattr (VModel c (assoc_set name x d)) name = Some x
  ∧ (∀ other, name ≠ other →
       getattr (VModel c (assoc_set name x d)) other = getattr (VModel c d) other).
Proof.
  intros Hc. split; [|split].
  - unfold setattr. rewrite (all_models_BaseConfig c Hc). cbn.
    by destruct (has_field c name).
  - apply assoc_assoc_set.
  - intros other Hne. by apply assoc_assoc_set_ne.
Qed.

(** Naming a contact after the parse. *)
Lemma assignment_rebinds_witness :
  setattr (VModel Contact [("name", VNone); ("url", VNone); ("email", VNone)])
    "name" (VStr "Ops")
  = inr (VModel Contact [("name", VStr "Ops"); ("url", VNone); ("email", VNone)]).
Proof.
  destruct (assignment_rebinds Contact
              [("name", VNone); ("url", VNone); ("email", VNone)]
              "name" (VStr "Ops")) as [H _].
  - right. left. reflexivity.
  - exact H.
Defined.

(** ** C9: addresses without [email_validator] *)

(** C9: when [email_validator] is not installed, a [Contact] whose [email]
    is any string [s] logs the warning, reports no error located at [email],
    has [email = s] as a plain string when it parses, and does parse when
    [name] and [url] are absent. *)
Theorem email_degrades_to_str rt (m : gmap string json) s :
  email_validator_installed rt = false → m !! "email" = Some (JStr s) →
  In email_warning (warnings (parse rt Contact (JObj m)))
  ∧ (∀ es e, res (parse rt Contact (JObj m)) = Invalid es → In e es →
             ∀ l, loc e ≠ Key "email" :: l)
  ∧ (∀ v, res (parse rt Contact (JObj m)) = Ok v →
          getattr v "email" = Some (VStr s))
  ∧ (m !! "name" = None → m !! "url" = None →
     parse rt Contact (JObj m)
     = Out [email_warning]
         (Ok (VModel Contact
                [("name", VNone); ("url", VNone); ("email", VStr s)]))).
Proof.
  intros Hinst Hm.
  assert (validate_field (validate rt (TOptional TEmailStr))
            (ann_none "email" (TOptional TEmailStr)) m
          = Out [email_warning] (Ok (VStr s))) as Hemail.
  { rewrite (validate_field_present _ (ann_none "email" (TOptional TEmailStr))
               m (JStr s) Hm eq_refl).
    cbn. unfold EmailStr_validate. rewrite Hinst. reflexivity. }
  split; [|split; [|split]].
  - rewrite warnings_parse_obj. cbn [cfields Contact BaseModel map fannot ann_none].
    rewrite Hemail. cbn [concat warnings]. apply in_or_app. right.
    apply in_or_app. right. left. reflexivity.
  - intros es e Hes He l Hl. rewrite parse_obj in Hes.
    unfold build_model in Hes. apply res_omap_out_Invalid in Hes.
    destruct (collect_Invalid_inv _ _ _ Hes He) as (o & es0 & Hin & Ho & He0).
    rewrite field_outcomes_snd in Hin.
    cbn [cfields Contact BaseModel map fannot ann_none In] in Hin.
    destruct Hin as [<-|[<-|[<-|[]]]].
    + destruct (validate_field_loc _ _ _ _ _ Ho He0) as (l' & Hl').
      rewrite Hl in Hl'. discriminate.
    + destruct (validate_field_loc _ _ _ _ _ Ho He0) as (l' & Hl').
      rewrite Hl in Hl'. discriminate.
    + rewrite Hemail in Ho. discriminate.
  - intros v Hv. apply parse_obj_Ok in Hv as (xs & H & ->).
    cbn [cfields Contact BaseModel] in H.
    inversion H as [|? x1 ? ? Hx1 H1]; subst; clear H.
    inversion H1 as [|? x2 ? ? Hx2 H2]; subst; clear H1.
    inversion H2 as [|? x3 ? ? Hx3 H3]; subst; clear H2.
    inversion H3; subst.
    cbn [fannot ann_none] in Hx3. rewrite Hemail in Hx3.
    injection Hx3 as <-. reflexivity.
  - intros Hname Hurl. rewrite parse_obj. unfold build_model, field_outcomes.
    cbn [cfields Contact BaseModel map fannot ann_none].
    rewrite Hemail.
    rewrite (validate_field_absent _ (ann_none "name" (TOptional TStr)) m Hname eq_refl).
    rewrite (validate_field_absent _ (ann_none "url" (TOptional TAnyUrl)) m Hurl eq_refl).
    reflexivity.
Qed.

(** A contact whose [email] is not an address. *)
Lemma email_degrades_to_str_witness :
  parse bare_runtime Contact (JObj {[ "email" := JStr "not an address" ]})
  = Out [email_warning]
      (Ok (VModel Contact
             [("name", VNone); ("url", VNone); ("email", VStr "not an address")])).
Proof.
  destruct (email_degrades_to_str bare_runtime
              {[ "email" := JStr "not an address" ]} "not an address")
    as (_ & _ & _ & H); [reflexivity..|].
  apply H; reflexivity.
Defined.

(** ** C10: the placeholders [Tag] and [Components] *)


(** * Further properties of the model *)

(** ** Errors *)

Lemma errors_of_collect {A} (os : list (outcome A)) :
  errors_of (collect os) = concat (map errors_of os).
Proof.
  unfold errors_of. induction os as [|o os IH]; simpl; [reflexivity|].
  rewrite <- IH.
  destruct (res o) as [a|e], (res (collect os)) as [l|e']; simpl;
    rewrite ?app_nil_r; reflexivity.
Qed.

Lemma errors_of_omap_out {A B} (f : A → B) (o : outcome A) :
  errors_of (omap_out f o) = errors_of o.
Proof. unfold errors_of, omap_out; simpl. by destruct (res o). Qed.

Lemma errors_of_parse_obj rt c (m : gmap string json) :
  errors_of (parse rt c (JObj m))
  = concat (map (λ f, errors_of (validate_field (validate rt (fannot f)) f m))
              (cfields c)).
Proof.
  rewrite parse_obj. unfold build_model.
  rewrite errors_of_omap_out, errors_of_collect, field_outcomes_snd, map_map.
  reflexivity.
Qed.




(** X2: every error of parsing a mapping is located at, or below, the
    external key of a declared attribute. *)
Theorem parse_errors_located rt c (m : gmap string json) e :
  In e (errors_of (parse rt c (JObj m))) →
  ∃ f l, In f (cfields c) ∧ loc e = Key (field_alias f) :: l.
Proof.
  rewrite errors_of_parse_obj. intros He.
  apply in_concat in He as (es & Hes & He).
  apply in_map_iff in Hes as (f & <- & Hf).
  unfold errors_of in He.
  destruct (res (validate_field _ f m)) as [x|es] eqn:Hr; [destruct He|].
  destruct (validate_field_loc _ _ _ _ _ Hr He) as (l & Hl). eauto.
Qed.

(** The missing [info] of an empty AsyncAPI document. *)
Lemma parse_errors_located_witness :
  ∃ f l, In f (cfields AsyncAPI)
         ∧ loc (missing_at "info") = Key (field_alias f) :: l.
Proof.
  apply (parse_errors_located bare_runtime AsyncAPI ∅ (missing_at "info")).
  vm_compute. tauto.
Defined.











Lemma in_imap {A B} (f : nat → A → B) (l : list A) y :
  In y (imap f l) → ∃ i x, y = f i x ∧ In x l.
Proof.
  revert f. induction l as [|x l IH]; intros f; simpl; [intros []|].
  intros [<-|H]; [eauto|].
  destruct (IH _ H) as (i & x' & -> & Hx). exists (S i), x'. auto.
Qed.





(** ** Keys and attributes *)

Lemma parse_obj_ext rt c (m m' : gmap string json) :
  (∀ f, In f (cfields c) → m !! field_alias f = m' !! field_alias f) →
  parse rt c (JObj m) = parse rt c (JObj m').
Proof.
  intros H. rewrite !parse_obj. f_equal. unfold field_outcomes.
  apply map_ext_in. intros f Hf. f_equal. apply validate_field_ext. by apply H.
Qed.

(** X5: a parse reads the external keys of the declared attributes and
    nothing else: two mappings that agree on them parse alike, whatever other
    keys they hold. *)
Theorem parse_reads_declared_keys rt c (m m' : gmap string json) :
  (∀ f, In f (cfields c) → m !! field_alias f = m' !! field_alias f) →
  parse rt c (JObj m) = parse rt c (JObj m').
Proof. apply parse_obj_ext. Qed.

(** A reference with two undeclared keys, one of them the internal name. *)
Lemma parse_reads_declared_keys_witness :
  parse bare_runtime Reference
    (JObj {[ "$ref" := JStr "#/a"; "ref" := JStr "#/b"; "x-note" := JNull ]})
  = parse bare_runtime Reference (JObj {[ "$ref" := JStr "#/a" ]}).
Proof.
  apply (parse_reads_declared_keys bare_runtime Reference).
  intros f [<-|[]]. reflexivity.
Defined.










Lemma assoc_zip_field (fs : list field) xs (f : field) (R : field → value → Prop) :
  NoDup (map fname fs) → Forall2 R fs xs → In f fs →
  ∃ x, R f x ∧ assoc (fname f) (zip (map fname fs) xs) = Some x.
Proof.
  intros Hnd H. induction H as [|g x fs xs Hgx _ IH]; intros Hf; [destruct Hf|].
  simpl in Hnd. apply NoDup_cons in Hnd as [Hg Hnd]. cbn.
  destruct Hf as [->|Hf].
  - exists x. by rewrite String.eqb_refl.
  - destruct (String.eqb (fname f) (fname g)) eqn:E.
    + apply String.eqb_eq in E. destruct Hg. rewrite <- E.
      apply list_elem_of_In. by apply in_map.
    + by apply IH.
Qed.

(** X8: the value of an attribute depends on the value under its own
    external key alone; when that key is absent the attribute is [None],
    whatever else the mapping holds. *)
Theorem attribute_reads_its_key rt c (m m' : gmap string json) v v' (f : field) :
  In c all_models → In f (cfields c) →
  m !! field_alias f = m' !! field_alias f →
  res (parse rt c (JObj m)) = Ok v → res (parse rt c (JObj m')) = Ok v' →
  getattr v (fname f) = getattr v' (fname f)
  ∧ (m !! field_alias f = None → getattr v (fname f) = Some VNone).
Proof.
  intros Hc Hf Hm Hv Hv'.
  pose proof all_models_wf as Hwf. rewrite Forall_forall in Hwf.
  destruct (wf_model_NoDup c) as [Hn _]; [by apply Hwf, list_elem_of_In|].
  apply parse_obj_Ok in Hv as (xs & Hxs & ->).
  apply parse_obj_Ok in Hv' as (xs' & Hxs' & ->).
  destruct (assoc_zip_field _ _ f _ Hn Hxs Hf) as (x & Hx & Hget).
  destruct (assoc_zip_field _ _ f _ Hn Hxs' Hf) as (x' & Hx' & Hget').
  cbn [getattr]. rewrite Hget, Hget'.
  rewrite (validate_field_ext _ f m m' Hm) in Hx. split; [congruence|].
  intros Hnone. rewrite <- (validate_field_ext _ f m m' Hm) in Hx.
  unfold validate_field in Hx. rewrite Hnone in Hx. apply res_under in Hx.
  destruct (field_required f); [discriminate|]. by injection Hx as <-.
Qed.

(** The [url] of a licence that has none. *)
Lemma attribute_reads_its_key_witness :
  getattr (VModel License [("name", VStr "MIT"); ("url", VNone)]) "url"
  = Some VNone.
Proof.
  destruct (attribute_reads_its_key bare_runtime License
              {[ "name" := JStr "MIT" ]}
              {[ "name" := JStr "MIT" ]}
              (VModel License [("name", VStr "MIT"); ("url", VNone)])
              (VModel License [("name", VStr "MIT"); ("url", VNone)])
              (ann_none "url" (TOptional TAnyUrl))) as [_ H].
  - do 2 right. left. reflexivity.
  - right. left. reflexivity.
  - reflexivity.
  - reflexivity.
  - reflexivity.
  - apply H. reflexivity.
Defined.

(** X9: a [Reference] is populated through its external key only: a mapping
    without ["$ref"] fails with exactly one error, the missing ["$ref"], also
    when it holds the internal name ["ref"]. *)
Theorem reference_needs_external_key rt (m : gmap string json) :
  m !! "$ref" = None →
  parse rt Reference (JObj m) = Out [] (Invalid [missing_at "$ref"]).
Proof.
  intros Hm. rewrite parse_obj. unfold build_model, field_outcomes.
  cbn [cfields Reference BaseModel map]. unfold validate_field.
  cbn [field_alias finfo ann_field Field fi_alias kwarg String.eqb Ascii.eqb
       Bool.eqb].
  rewrite Hm. reflexivity.
Qed.

(** A mapping that uses the internal name. *)
Lemma reference_needs_external_key_witness :
  parse bare_runtime Reference (JObj {[ "ref" := JStr "#/components/schemas/Foo" ]})
  = Out [] (Invalid [missing_at "$ref"]).
Proof.
  apply (reference_needs_external_key bare_runtime
           {[ "ref" := JStr "#/components/schemas/Foo" ]}).
  reflexivity.
Defined.

(** ** Warnings *)

Lemma warnings_of_option {A} e (f : A → value) o : warnings (of_option e f o) = [].
Proof. by destruct o. Qed.

Lemma warnings_first_success {A} (os : list (outcome A)) w :
  In w (warnings (first_success os)) → ∃ o, In o os ∧ In w (warnings o).
Proof.
  induction os as [|o os IH]; simpl; [intros []|].
  destruct (res o) as [a|e].
  - intros Hw. exists o. auto.
  - simpl. intros Hw. apply in_app_or in Hw as [Hw|Hw].
    + exists o. auto.
    + destruct (IH Hw) as (o' & Hin & Hw'). exists o'. auto.
Qed.

Lemma warnings_collect_In {A} (os : list (outcome A)) w :
  In w (warnings (collect os)) → ∃ o, In o os ∧ In w (warnings o).
Proof.
  rewrite collect_warnings. intros Hw.
  apply in_concat in Hw as (ws & Hws & Hw).
  apply in_map_iff in Hws as (o & <- & Ho). eauto.
Qed.

Lemma warnings_check_ge fi (o : outcome value) :
  warnings (check_ge fi o) = warnings o.
Proof.
  unfold check_ge. destruct (fi_ge fi) as [g|]; [|done].
  destruct (res o) as [[]|]; try done. by destruct (z <? g)%Z.
Qed.

Lemma warnings_validate_field vT (f : field) (m : gmap string json) w :
  In w (warnings (validate_field vT f m)) →
  ∃ j, m !! field_alias f = Some j ∧ In w (warnings (vT j)).
Proof.
  unfold validate_field. cbn [under warnings].
  destruct (m !! field_alias f) as [j|].
  - destruct j; try (rewrite warnings_check_ge; eauto).
    by destruct (field_allow_none f).
  - by destruct (field_required f).
Qed.

Lemma validate_warns_only_for_email rt T : warns_only_for_email rt T.
Proof.
  induction T as [| | | | | | | |e|T IH|T IH|T IH|Ts IH|c IH]
    using ftype_nested_ind; intros j w;
    (destruct (is_null j) eqn:Hnull;
     [destruct j; try discriminate; rewrite validate_null;
      by destruct (allow_none _)|]).
  all: try (destruct j; try discriminate; cbn; rewrite ?warnings_of_option;
            by intros []).
  - destruct j; try discriminate; cbn; unfold EmailStr_validate;
      destruct (email_validator_installed rt) eqn:Hinst; cbn;
      rewrite ?warnings_of_option;
      repeat match goal with
             | |- context [match ?o with Some _ => _ | None => _ end] =>
                 destruct o
             end; cbn; try (by intros []); intros [<-|[]]; done.
  - intros Hw. apply (IH j w). by destruct j.
  - destruct j; try discriminate; cbn; try (by intros []).
    intros Hw. apply warnings_collect_In in Hw as (o & Ho & Hw).
    apply in_imap in Ho as (i & x & -> & Hx). by apply (IH x w).
  - assert (In w (warnings
                    match dict_validator rt j with
                    | Some m =>
                        build_dict
                          (map (λ kx, (kx.1, under (Key kx.1)
                                               (validate rt T kx.2)))
                             (map_to_list m))
                    | None => fail type_error_dict
                    end) →
            w = email_warning ∧ email_validator_installed rt = false
            ∧ mentions_EmailStr (TDict T) = true) as H.
    { destruct (dict_validator rt j) as [m|]; [|by intros []].
      unfold build_dict. cbn [omap_out warnings]. intros Hw.
      apply warnings_collect_In in Hw as (o & Ho & Hw).
      apply in_map_iff in Ho as ([k o'] & <- & Ho).
      apply in_map_iff in Ho as ([k' x] & [= <- <-] & _).
      by apply (IH x w). }
    by destruct j.
  - intros Hw.
    assert (In w (warnings (first_success (map (λ T', validate rt T' j) Ts))))
      as Hw' by (by destruct j).
    apply warnings_first_success in Hw' as (o & Ho & Hw').
    apply in_map_iff in Ho as (T & <- & HT).
    rewrite Forall_forall in IH.
    destruct (IH T (proj2 (list_elem_of_In _ _) HT) j w Hw') as (? & ? & Hm).
    split; [done|]. split; [done|]. cbn. apply existsb_exists. eauto.
  - assert (In w (warnings
                    match dict_validator rt j with
                    | Some m => build_model c (field_outcomes rt c m)
                    | None => fail type_error_dict
                    end) →
            w = email_warning ∧ email_validator_installed rt = false
            ∧ mentions_EmailStr (TModel c) = true) as H.
    { destruct (dict_validator rt j) as [m|]; [|by intros []].
      unfold build_model. cbn [omap_out warnings]. intros Hw.
      apply warnings_collect_In in Hw as (o & Ho & Hw).
      rewrite field_outcomes_snd in Ho.
      apply in_map_iff in Ho as (f & <- & Hf).
      apply warnings_validate_field in Hw as (x & _ & Hw).
      rewrite Forall_forall in IH.
      destruct (IH f (proj2 (list_elem_of_In _ _) Hf) x w Hw) as (? & ? & Hm).
      split; [done|]. split; [done|]. cbn. apply existsb_exists. eauto. }
    by destruct j.
Qed.

(** X10: the only line a parse ever logs is the warning of the stand-in
    [EmailStr]; it is logged only when [email_validator] is not installed and
    only by [Contact] and the classes that hold one, [Info] and [AsyncAPI]. *)
Theorem only_contacts_warn rt c raw w :
  In c all_models → In w (warnings (parse rt c raw)) →
  w = email_warning ∧ email_validator_installed rt = false
  ∧ In (cname c) ["Contact"; "Info"; "AsyncAPI"].
Proof.
  intros Hc Hw.
  destruct (validate_warns_only_for_email rt (TModel c) raw w Hw)
    as (H1 & H2 & H3).
  split; [done|]. split; [done|].
  repeat (destruct Hc as [<-|Hc];
          [first [discriminate H3 | cbn; tauto]|]).
  destruct Hc.
Qed.

(** A contact with an address, without [email_validator]. *)
Lemma only_contacts_warn_witness :
  email_warning = email_warning
  ∧ email_validator_installed bare_runtime = false
  ∧ In (cname Contact) ["Contact"; "Info"; "AsyncAPI"].
Proof.
  apply (only_contacts_warn bare_runtime Contact
           (JObj {[ "email" := JStr "ops@example.com" ]}) email_warning).
  - right. left. reflexivity.
  - vm_compute. left. reflexivity.
Defined.

(** ** Enumerations, URLs and unions *)

(** X11: a protocol is read by the value of the member, not by its name:
    every value gives its member, which serialises back to the value; a name
    that differs from its value ([kafka_secure], [secure_mqtt]) is refused, and
    so is anything that is not a string. *)
Theorem protocol_is_read_by_value rt n s :
  In (n, s) (members ServerProtocol) →
  validate rt (TEnum ServerProtocol) (JStr s)
  = ok (VEnum "ServerProtocol" n s)
  ∧ serialize (VEnum "ServerProtocol" n s) = JStr s
  ∧ (n ≠ s →
     validate rt (TEnum ServerProtocol) (JStr n)
     = fail (type_error_enum protocols))
  ∧ (∀ j, (∀ s', j ≠ JStr s') →
          ∃ e, validate rt (TEnum ServerProtocol) j = fail e).
Proof.
  intros Hin.
  assert (∀ j, (∀ s', j ≠ JStr s') →
               ∃ e, validate rt (TEnum ServerProtocol) j = fail e) as Hother.
  { intros j Hj. destruct j; try (eexists; reflexivity). by destruct (Hj s0). }
  cbn in Hin.
  repeat (destruct Hin as [[= <- <-]|Hin];
          [split; [reflexivity|split; [reflexivity|split; [|exact Hother]]];
           intros Hne; first [done|reflexivity]|]).
  destruct Hin.
Qed.

(** [kafka-secure] and [kafka_secure]. *)
Lemma protocol_is_read_by_value_witness :
  validate bare_runtime (TEnum ServerProtocol) (JStr "kafka-secure")
  = ok (VEnum "ServerProtocol" "kafka_secure" "kafka-secure")
  ∧ validate bare_runtime (TEnum ServerProtocol) (JStr "kafka_secure")
    = fail (type_error_enum protocols).
Proof.
  destruct (protocol_is_read_by_value bare_runtime "kafka_secure" "kafka-secure")
    as (H1 & _ & H3 & _).
  - do 6 right. left. reflexivity.
  - split; [exact H1|]. apply H3. discriminate.
Defined.

Lemma validate_url_or_str rt s :
  validate rt (TUnion [TAnyUrl; TStr]) (JStr s)
  = ok match pydantic_AnyUrl rt s with
       | Some u => VUrl u
       | None => VStr s
       end.
Proof. cbn. unfold AnyUrl_validate; cbn. by destruct (pydantic_AnyUrl rt s). Qed.

(** X12: the [url] of a [Server] ([Union[AnyUrl, str]]) takes any string: no
    error is ever located at it, and it is an [AnyUrl] when the string is a URL
    and the plain string otherwise; the [url] of an [ExternalDocumentation]
    ([AnyUrl]) refuses a string that is not a URL. *)
Theorem server_url_takes_any_string rt (m : gmap string json) s :
  m !! "url" = Some (JStr s) →
  (∀ e, In e (errors_of (parse rt Server (JObj m))) →
        ∀ l, loc e ≠ Key "url" :: l)
  ∧ (∀ v, res (parse rt Server (JObj m)) = Ok v →
          getattr v "url"
          = Some match pydantic_AnyUrl rt s with
                 | Some u => VUrl u
                 | None => VStr s
                 end)
  ∧ (pydantic_AnyUrl rt s = None →
     In (Err [Key "url"] value_error_url)
       (errors_of (parse rt ExternalDocumentation (JObj m)))).
Proof.
  intros Hm.
  assert (validate_field (validate rt (TUnion [TAnyUrl; TStr]))
            (ann "url" (TUnion [TAnyUrl; TStr])) m
          = ok match pydantic_AnyUrl rt s with
               | Some u => VUrl u
               | None => VStr s
               end) as Hurl.
  { rewrite (validate_field_present _ (ann "url" (TUnion [TAnyUrl; TStr]))
               m (JStr s) Hm eq_refl).
    rewrite validate_url_or_str. reflexivity. }
  split; [|split].
  - intros e He l Hl. rewrite errors_of_parse_obj in He.
    apply in_concat in He as (es & Hes & He).
    apply in_map_iff in Hes as (f & <- & Hf).
    unfold errors_of in He.
    destruct (res (validate_field _ f m)) as [x|es] eqn:Hr; [destruct He|].
    destruct (validate_field_loc _ _ _ _ _ Hr He) as (l' & Hl').
    rewrite Hl in Hl'. injection Hl' as Ha _.
    cbn in Hf.
    repeat (destruct Hf as [<-|Hf]; [try discriminate Ha|]); [|destruct Hf].
    cbn [fannot ann] in Hr. rewrite Hurl in Hr. discriminate.
  - intros v Hv. apply parse_obj_Ok in Hv as (xs & H & ->).
    cbn [cfields Server BaseModel] in H.
    inversion H as [|? x1 ? xs1 Hx1 H1]; subst.
    cbn [fannot ann] in Hx1. rewrite Hurl in Hx1. injection Hx1 as <-.
    reflexivity.
  - intros Hnone. rewrite errors_of_parse_obj.
    cbn [cfields ExternalDocumentation BaseModel map concat fannot ann ann_none].
    apply in_or_app. right. apply in_or_app. left.
    rewrite (validate_field_present _ (ann "url" TAnyUrl) m (JStr s) Hm eq_refl).
    cbn. unfold AnyUrl_validate; cbn. rewrite Hnone. left. reflexivity.
Qed.

(** A host name without a scheme. *)
Lemma server_url_takes_any_string_witness :
  (∀ v, res (parse bare_runtime Server
               (JObj (<["url" := JStr "broker"]> (Docs.server_fields "amqp"))))
        = Ok v →
        getattr v "url" = Some (VStr "broker"))
  ∧ In (Err [Key "url"] value_error_url)
      (errors_of (parse bare_runtime ExternalDocumentation
                    (JObj (<["url" := JStr "broker"]>
                             (Docs.server_fields "amqp"))))).
Proof.
  destruct (server_url_takes_any_string bare_runtime
              (<["url" := JStr "broker"]> (Docs.server_fields "amqp")) "broker")
    as (_ & H2 & H3); [reflexivity|].
  split; [exact H2|]. apply H3. reflexivity.
Defined.








(** ** Subclasses *)





Lemma validate_Any_Ok rt j : ∃ x, res (validate rt TAny j) = Ok x.
Proof. destruct j; eexists; reflexivity. Qed.

Lemma collect_all_Ok {A} (os : list (outcome A)) :
  Forall (λ o, ∃ x, res o = Ok x) os → ∃ xs, res (collect os) = Ok xs.
Proof.
  induction 1 as [|o os (x & Hx) _ (xs & IH)].
  - by exists [].
  - exists (x :: xs). apply collect_Ok. constructor; [done|]. by apply collect_Ok.
Qed.

Lemma validate_list_Any rt T j x :
  res (validate rt (TOptional (TList T)) j) = Ok x →
  ∃ y, res (validate rt (TOptional (TList TAny)) j) = Ok y.
Proof.
  destruct j; try (cbn; discriminate); [by exists VNone|].
  intros _. cbn.
  destruct (collect_all_Ok
              (imap (λ i x, under (Index i) (validate rt TAny x)) l))
    as (ys & Hys).
  - apply Forall_forall. intros o Ho. apply list_elem_of_In in Ho.
    apply in_imap in Ho as (i & y & -> & _).
    destruct (validate_Any_Ok rt y) as (z & Hz). exists z. by apply res_under.
  - eexists. apply res_omap_out. eauto.
Qed.

Lemma validate_dict_Any rt T j x :
  res (validate rt (TOptional (TDict T)) j) = Ok x →
  ∃ y, res (validate rt (TOptional (TDict TAny)) j) = Ok y.
Proof.
  destruct (is_null j) eqn:Hnull; [destruct j; try discriminate; by exists VNone|].
  assert (∀ U, validate rt (TOptional (TDict U)) j
               = match dict_validator rt j with
                 | Some m =>
                     build_dict
                       (map (λ kx, (kx.1, under (Key kx.1) (validate rt U kx.2)))
                          (map_to_list m))
                 | None => fail type_error_dict
                 end) as HU by (intros U; by destruct j).
  rewrite !HU. destruct (dict_validator rt j) as [m|]; [|discriminate].
  intros _. unfold build_dict.
  destruct (collect_all_Ok
              (map (λ kx : string * json,
                      (kx.1, under (Key kx.1) (validate rt TAny kx.2)))
                 (map_to_list m)).*2) as (ys & Hys).
  - apply Forall_forall. intros o Ho. apply list_elem_of_In in Ho.
    apply in_map_iff in Ho as ([k o'] & <- & Ho).
    apply in_map_iff in Ho as ([k' y] & [= <- <-] & _).
    destruct (validate_Any_Ok rt y) as (z & Hz). exists z. by apply res_under.
  - eexists. apply res_omap_out. eauto.
Qed.

Lemma field_ok_wider rt (m : gmap string json) n T U fi :
  fi_ge fi = None →
  (∀ j x, res (validate rt (TOptional T) j) = Ok x →
          ∃ y, res (validate rt (TOptional U) j) = Ok y) →
  field_ok rt m (ann_field n (TOptional T) fi) →
  field_ok rt m (ann_field n (TOptional U) fi).
Proof.
  intros Hge HTU (x & Hx). unfold field_ok, validate_field in *.
  apply res_under in Hx.
  change (field_alias (ann_field n (TOptional U) fi))
    with (field_alias (ann_field n (TOptional T) fi)).
  change (field_required (ann_field n (TOptional U) fi))
    with (field_required (ann_field n (TOptional T) fi)).
  change (field_allow_none (ann_field n (TOptional U) fi)) with true.
  change (field_allow_none (ann_field n (TOptional T) fi)) with true in Hx.
  cbn [finfo fannot ann_field] in *.
  assert (∀ o : outcome value, check_ge fi o = o) as Hc
    by (intros o; unfold check_ge; by rewrite Hge).
  destruct (m !! field_alias (ann_field n (TOptional T) fi)) as [j|].
  - rewrite !Hc in Hx.
    destruct (is_null j) eqn:Hnull.
    + destruct j; try discriminate. exists VNone. by apply res_under.
    + assert (res (validate rt (TOptional T) j) = Ok x) as Hx'
        by (by destruct j).
      destruct (HTU j x Hx') as (y & Hy). exists y. apply res_under.
      rewrite !Hc. by destruct j.
  - exists x. by apply res_under.
Qed.

Lemma schema_widens rt :
  Forall2 (widens rt) (cfields Schema) (cfields SchemaBase).
Proof.
  repeat (constructor 2; [split; [reflexivity|]; first
    [ left; reflexivity
    | right; split; [cbn; tauto|]; intros m;
      apply field_ok_wider; [reflexivity|];
      first [ apply validate_list_Any
            | apply validate_dict_Any
            | intros j x _; destruct j; eexists; reflexivity ] ]|]).
  constructor.
Qed.

Lemma widened_parse rt (m : gmap string json) (fs gs : list field) xs :
  Forall2 (widens rt) fs gs →
  Forall2 (λ f x, res (validate_field (validate rt (fannot f)) f m) = Ok x)
    fs xs →
  ∃ ys,
    Forall2 (λ g y, res (validate_field (validate rt (fannot g)) g m) = Ok y)
      gs ys
    ∧ ∀ name, ¬ In name narrowed →
              assoc name (zip (map fname gs) ys)
              = assoc name (zip (map fname fs) xs).
Proof.
  intros Hw. revert xs. induction Hw as [|f g fs gs (Hn & Hfg) _ IH];
    intros xs Hxs.
  - inversion Hxs; subst. exists []. split; [constructor|done].
  - inversion Hxs as [|? x ? xs' Hx Hxs']; subst.
    destruct (IH xs' Hxs') as (ys & Hys & Hassoc).
    destruct Hfg as [<-|(Hnar & Hok)].
    + exists (x :: ys). split; [by constructor|].
      intros name Hname. cbn. rewrite (Hassoc name Hname). done.
    + destruct (Hok m (ex_intro _ x Hx)) as (y & Hy).
      exists (y :: ys). split; [by constructor|].
      intros name Hname. cbn. rewrite <- Hn.
      destruct (String.eqb name (fname f)) eqn:E; [|by apply Hassoc].
      apply String.eqb_eq in E. by subst.
Qed.

(** X17: [Schema] narrows [SchemaBase]: a mapping that parses as a [Schema]
    parses as a [SchemaBase], with the same value for every attribute but the
    six that [Schema] declares again with a narrower annotation. *)
Theorem schema_narrows_base rt (m : gmap string json) v :
  res (parse rt Schema (JObj m)) = Ok v →
  ∃ v', res (parse rt SchemaBase (JObj m)) = Ok v'
        ∧ ∀ name, ¬ In name narrowed → getattr v' name = getattr v name.
Proof.
  intros Hv. apply parse_obj_Ok in Hv as (xs & Hxs & ->).
  destruct (widened_parse rt m _ _ xs (schema_widens rt) Hxs)
    as (ys & Hys & Hassoc).
  exists (VModel SchemaBase (zip (map fname (cfields SchemaBase)) ys)). split.
  - apply parse_obj_Ok. eauto.
  - exact Hassoc.
Qed.

(** A schema with a title. *)
Lemma schema_narrows_base_witness :
  ∃ v', res (parse bare_runtime SchemaBase (JObj {[ "title" := JStr "T" ]}))
        = Ok v'
        ∧ getattr v' "title" = Some (VStr "T").
Proof.
  destruct (schema_narrows_base bare_runtime {[ "title" := JStr "T" ]}
              (VModel Schema
                 (zip (map fname (cfields Schema))
                    ([VNone; VStr "T"] ++ replicate 33 VNone))))
    as (v' & Hv' & Hattr).
  - vm_compute. reflexivity.
  - exists v'. split; [exact Hv'|].
    rewrite (Hattr "title"); [reflexivity|]. cbn. intuition discriminate.
Defined.
